(** * Inversion DNSBL Generator: feed ingestion and blocklist assembly

    A shallow embedding of
      - [modules/feeds/icann.py]   (ICANN CZDS token, endpoint listing,
                                    streaming zone-file decoder, job list),
      - [main.py]                  (two-vendor lookup and union),
      - [modules/utils/github.py]  (publication of the blocklists),
    followed by the properties of the specification that concern them.

    Python values are modelled as follows.  A [str] is the list of its
    Unicode code points, [bytes] a list of [byte]; a raised exception is
    the [Raise] branch of [Result]; a coroutine or generator is its trace:
    the list of what it yielded, logged and asked of the outside world,
    with the way it ended.  Everything the code obtains from outside the
    three files (HTTP replies, the [.env] file, zlib, the Unicode tables,
    the GitHub API, helpers of the repository kept in other modules) is a
    field of an environment record and is never assumed to behave well. *)

From Stdlib Require Import ZArith NArith List String Ascii Lia.
From Stdlib.Strings Require Import Byte.
From stdpp Require Import base list gmap sets strings option.

Open Scope N_scope.

(** ** Python values, exceptions and effects *)

Module Py.

Definition str := list N.
Definition bytes := list byte.

(** A literal of the source, as a [str]. *)
Definition py (s : string) : str := map N_of_ascii (list_ascii_of_string s).

(** The exceptions the three files can meet; all of them are instances
    of [Exception], which is what the [except Exception] clauses of the
    source catch.  [EnvError] stands for whatever a collaborator raises
    (aiohttp's ClientError, OSError, GithubException, JSONDecodeError). *)
Inductive exn :=
| IndexError
| NameError
| KeyError (key : string)
| TypeError
| AttributeError
| ValueError (msg : string)
| UnicodeDecodeError
| ZlibError (msg : string)
| NotImplementedError (msg : string)
| EnvError (name : string).

Inductive Result (A : Type) :=
| Ok (a : A)
| Raise (e : exn).
Arguments Ok {A} a.
Arguments Raise {A} e.

Definition is_Ok {A} (r : Result A) : bool :=
  match r with Ok _ => true | Raise _ => false end.

(** JSON documents as [json.loads] returns them ([JNum] is an int; a
    float takes the same branches everywhere below).  A dict keeps its
    items in order, each key once. *)
#[local] Set Warnings "-register-all".
Inductive json :=
| JNull
| JBool (b : bool)
| JNum (n : Z)
| JStr (s : str)
| JArr (items : list json)
| JObj (items : list (str * json)).

Definition headers := list (string * str).

(** What leaves the process. *)
Inductive call :=
| HttpPost (url : string) (payload : json) (h : headers)
| HttpGet (url : string) (h : headers)
| HttpGetStream (url : str) (h : headers)
| GitCreateTree (elements : list (str * str))
| GitCreateCommit (message : str)
| GitCompare (base : string) (head : str)
| GitRefEdit (ref : string) (sha : str).

Inductive level := INFO | WARNING | ERROR.

Inductive log_arg :=
| AStr (s : str)
| AExn (e : exn)
| ARepr (e : exn).

(** One observable step of a coroutine or generator yielding [Y]. *)
Inductive event (Y : Type) :=
| Yield (y : Y)
| Log (lvl : level) (msg : string) (args : list log_arg)
| Call (c : call).
Arguments Yield {Y} y.
Arguments Log {Y} lvl msg args.
Arguments Call {Y} c.

(** A computation: the events it performed, then its result.  Events
    performed before an exception stay performed. *)
Definition Eff (Y A : Type) : Type := list (event Y) * Result A.

(** A coroutine or plain function yields nothing. *)
Definition Coro (A : Type) : Type := Eff Empty_set A.

Definition ret {Y A} (a : A) : Eff Y A := ([], Ok a).
Definition raise {Y A} (e : exn) : Eff Y A := ([], Raise e).
Definition emit {Y} (ev : event Y) : Eff Y unit := ([ev], Ok tt).
Definition lift {Y A} (r : Result A) : Eff Y A := ([], r).

Definition bind {Y A B} (m : Eff Y A) (f : A -> Eff Y B) : Eff Y B :=
  match m with
  | (evs, Ok a) => let '(evs', r) := f a in (evs ++ evs', r)
  | (evs, Raise e) => (evs, Raise e)
  end.

#[export] Instance eff_ret {Y} : MRet (Eff Y) := fun A a => ret a.
#[export] Instance eff_bind {Y} : MBind (Eff Y) := fun A B f m => bind m f.

(** [try: body / except Exception as error: handler error]. *)
Definition try_except {Y A} (body : Eff Y A) (handler : exn -> Eff Y A) : Eff Y A :=
  match body with
  | (evs, Ok a) => (evs, Ok a)
  | (evs, Raise e) => let '(evs', r) := handler e in (evs ++ evs', r)
  end.

Definition yields {Y A} (m : Eff Y A) : list Y :=
  omap (fun ev => match ev with Yield y => Some y | _ => None end) (fst m).

Definition logs {Y A} (m : Eff Y A) : list (level * string) :=
  omap (fun ev => match ev with Log l s _ => Some (l, s) | _ => None end) (fst m).

Definition calls {Y A} (m : Eff Y A) : list call :=
  omap (fun ev => match ev with Call c => Some c | _ => None end) (fst m).

(** A list comprehension whose element expression may raise. *)
Fixpoint comprehension {A B} (f : A -> Result B) (xs : list A) : Result (list B) :=
  match xs with
  | [] => Ok []
  | x :: xs' =>
      match f x with
      | Raise e => Raise e
      | Ok b => match comprehension f xs' with
                | Raise e => Raise e
                | Ok bs => Ok (b :: bs)
                end
      end
  end.

(** [list.pop()]: the last element and the list without it. *)
Fixpoint pop {A} (l : list A) : Result (list A * A) :=
  match l with
  | [] => Raise IndexError
  | [x] => Ok ([], x)
  | x :: l' => match pop l' with
               | Ok (init, last) => Ok (x :: init, last)
               | Raise e => Raise e
               end
  end.

(** [d.get(key, default)] and [key in d] on the items of a dict. *)
Fixpoint dict_get {K V} `{EqDecision K} (key : K) (items : list (K * V)) : option V :=
  match items with
  | [] => None
  | (k, v) :: items' => if decide (k = key) then Some v else dict_get key items'
  end.

(** Cutting a sequence into consecutive pieces of [n] elements, the last
    one shorter: what repeated [read(n)] returns until the empty read.
    [room] counts the places left in the piece being filled. *)
Fixpoint pieces_from {A} (n room : N) (cur : list A) (l : list A) : list (list A) :=
  match l with
  | [] => match cur with [] => [] | _ => [rev cur] end
  | x :: l' =>
      if room =? 0 then rev cur :: pieces_from n (n - 1) [x] l'
      else pieces_from n (room - 1) (x :: cur) l'
  end.

Definition pieces {A} (n : N) (l : list A) : list (list A) :=
  if n =? 0 then [] else pieces_from n n [] l.

(** [needle in haystack] on two [str]. *)
Fixpoint contains (needle hay : str) : bool :=
  match hay with
  | [] => bool_decide (needle = [])
  | _ :: hay' => bool_decide (needle `prefix_of` hay) || contains needle hay'
  end.

(** [s.split(sep)] for a one-character separator: always at least one part. *)
Fixpoint split_on (sep : N) (s : str) : list str :=
  match s with
  | [] => [[]]
  | c :: s' =>
      if c =? sep then [] :: split_on sep s'
      else match split_on sep s' with
           | p :: ps => (c :: p) :: ps
           | [] => [[c]]
           end
  end.

End Py.

Import Py.


(** ** The [str] and [bytes] methods the decoder calls *)

Module Text.

(** The characters at which [str.splitlines] ends a line. *)
Definition is_linebreak (c : N) : bool :=
  bool_decide (c ∈ [0x0a; 0x0b; 0x0c; 0x0d; 0x1c; 0x1d; 0x1e; 0x85; 0x2028; 0x2029]).

(** The characters for which [str.isspace] holds: the separators of
    [str.split()] without argument. *)
Definition isspace (c : N) : bool :=
  bool_decide (c ∈ [0x09; 0x0a; 0x0b; 0x0c; 0x0d; 0x1c; 0x1d; 0x1e; 0x1f; 0x20;
                    0x85; 0xa0; 0x1680; 0x2028; 0x2029; 0x202f; 0x205f; 0x3000])
  || ((0x2000 <=? c) && (c <=? 0x200a)).

(** [s.splitlines()]: the lines without their terminators; "\r\n" ends
    one line; no empty line after a final terminator. *)
Fixpoint splitlines (s : str) : list str :=
  match s with
  | [] => []
  | c :: s' =>
      if is_linebreak c then
        [] :: match s' with
              | c' :: s'' => if (c =? 0x0d) && (c' =? 0x0a) then splitlines s'' else splitlines s'
              | [] => []
              end
      else
        match splitlines s' with
        | [] => [[c]]
        | l :: ls => (c :: l) :: ls
        end
  end.

(** [s.split()]: the maximal runs of characters that are not spaces. *)
Fixpoint split (s : str) : list str :=
  match s with
  | [] => []
  | c :: s' =>
      if isspace c then split s'
      else
        match s' with
        | [] => [[c]]
        | c' :: _ =>
            if isspace c' then [c] :: split s'
            else match split s' with
                 | t :: ts => (c :: t) :: ts
                 | [] => [[c]]
                 end
        end
  end.

(** [s.rstrip(chars)]: [s] without its longest suffix made of [chars]. *)
Fixpoint rstrip (chars : str) (s : str) : str :=
  match s with
  | [] => []
  | c :: s' =>
      match rstrip chars s' with
      | [] => if bool_decide (c ∈ chars) then [] else [c]
      | r => c :: r
      end
  end.

Section Lower.
(** [unicode_lower before c after] is the lowercase expansion the
    Unicode tables give a non-ASCII character [c] standing between
    [before] and [after] (one character may become several, and the
    capital sigma depends on its neighbours). *)
Variable unicode_lower : str -> N -> str -> str.

Definition ascii_lower (c : N) : N :=
  if (0x41 <=? c) && (c <=? 0x5a) then c + 0x20 else c.

Fixpoint lower_from (before : str) (s : str) : str :=
  match s with
  | [] => []
  | c :: s' =>
      (if c <? 0x80 then [ascii_lower c] else unicode_lower (rev before) c s')
        ++ lower_from (c :: before) s'
  end.

(** [s.lower()]. *)
Definition lower (s : str) : str := lower_from [] s.
End Lower.

(** [b.decode()]: strict UTF-8. *)
Definition continuation (b : N) : bool := (0x80 <=? b) && (b <? 0xc0).

Fixpoint utf8 (bs : list N) : Result str :=
  let more (cp : N) (rest : Result str) : Result str :=
    match rest with Ok s => Ok (cp :: s) | Raise e => Raise e end in
  match bs with
  | [] => Ok []
  | b0 :: r0 =>
      if b0 <? 0x80 then more b0 (utf8 r0)
      else if b0 <? 0xc2 then Raise UnicodeDecodeError
      else if b0 <? 0xe0 then
        match r0 with
        | b1 :: r1 =>
            if continuation b1
            then more ((b0 - 0xc0) * 0x40 + (b1 - 0x80)) (utf8 r1)
            else Raise UnicodeDecodeError
        | _ => Raise UnicodeDecodeError
        end
      else if b0 <? 0xf0 then
        match r0 with
        | b1 :: b2 :: r2 =>
            if continuation b1 && continuation b2
               && negb ((b0 =? 0xe0) && (b1 <? 0xa0))
               && negb ((b0 =? 0xed) && (0xa0 <=? b1))
            then more ((b0 - 0xe0) * 0x1000 + (b1 - 0x80) * 0x40 + (b2 - 0x80)) (utf8 r2)
            else Raise UnicodeDecodeError
        | _ => Raise UnicodeDecodeError
        end
      else if b0 <? 0xf5 then
        match r0 with
        | b1 :: b2 :: b3 :: r3 =>
            if continuation b1 && continuation b2 && continuation b3
               && negb ((b0 =? 0xf0) && (b1 <? 0x90))
               && negb ((b0 =? 0xf4) && (0x90 <=? b1))
            then more ((b0 - 0xf0) * 0x40000 + (b1 - 0x80) * 0x1000
                       + (b2 - 0x80) * 0x40 + (b3 - 0x80)) (utf8 r3)
            else Raise UnicodeDecodeError
        | _ => Raise UnicodeDecodeError
        end
      else Raise UnicodeDecodeError
  end.

Definition decode (b : bytes) : Result str := utf8 (map Byte.to_N b).

(** [s.encode()] of an ASCII literal. *)
Definition ascii_bytes (s : string) : bytes := map byte_of_ascii (list_ascii_of_string s).

End Text.

Import Text.

(** ** zlib *)

Module Zlib.

(** A streaming decompressor: [decompressobj] is the fresh object,
    [decompress d chunk] what [d.decompress(chunk)] returns together with
    the object after the call, or the error it raises. *)
Record Decompressor := {
  dstate : Type;
  decompressobj : dstate;
  decompress : dstate -> bytes -> Result (dstate * bytes);
}.

End Zlib.

Import Zlib.

(** A reference decompressor for the part of the gzip format that needs no
    Huffman decoding: a member whose header has no optional field and whose
    deflate blocks are all stored (what level 0 writes).  On such a member
    it returns, call by call, the bytes zlib returns: nothing while the
    header, a block header or the trailer is being read, and every stored
    byte as soon as it arrives.  Other features of the format are answered
    with [NotImplementedError]. *)
Module StoredGzip.

Definition crc32_bit (c : N) : N :=
  if N.testbit c 0 then N.lxor (N.shiftr c 1) 0xedb88320 else N.shiftr c 1.

(** The running CRC-32 register after one more byte. *)
Definition crc32_byte (c : N) (b : N) : N :=
  Nat.iter 8 crc32_bit (N.lxor c b).

Definition le32 (b0 b1 b2 b3 : N) : N :=
  b0 + 0x100 * b1 + 0x10000 * b2 + 0x1000000 * b3.

Inductive phase :=
| Head (got : list N)                 (* the ten bytes of the header *)
| BlockType                           (* the byte with BFINAL and BTYPE *)
| StoredLen (final : bool) (got : list N)   (* LEN and NLEN *)
| Stored (final : bool) (todo : N)    (* the bytes of a stored block *)
| Check (got : list N)                (* CRC-32 *)
| Length (got : list N)               (* ISIZE *)
| Done.                               (* the rest is unused_data *)

Record state := { ph : phase; crc : N; total : N }.

Definition start : state := {| ph := Head []; crc := 0xffffffff; total := 0 |}.

Definition after_block (final : bool) : phase :=
  if final then Check [] else BlockType.

Definition step (st : state) (b : byte) : Result (state * bytes) :=
  let n := Byte.to_N b in
  let goto p := Ok ({| ph := p; crc := crc st; total := total st |}, []) in
  match ph st with
  | Head got =>
      match got ++ [n] with
      | [i1; i2] as g =>
          if (i1 =? 0x1f) && (i2 =? 0x8b) then goto (Head g)
          else if negb ((0x100 * i1 + i2) mod 31 =? 0)
               then Raise (ZlibError "incorrect header check")
               else Raise (NotImplementedError "zlib header")
      | [_; _; cm; flg] as g =>
          if negb (cm =? 8) then Raise (ZlibError "unknown compression method")
          else if negb (N.land flg 0xe0 =? 0) then Raise (ZlibError "unknown header flags set")
          else if negb (N.land flg 0x1e =? 0) then Raise (NotImplementedError "optional header fields")
          else goto (Head g)
      | [_; _; _; _; _; _; _; _; _; _] => goto BlockType
      | g => goto (Head g)
      end
  | BlockType =>
      let final := N.testbit n 0 in
      match N.land (N.shiftr n 1) 3 with
      | 0 => goto (StoredLen final [])
      | 3 => Raise (ZlibError "invalid block type")
      | _ => Raise (NotImplementedError "compressed block")
      end
  | StoredLen final got =>
      match got ++ [n] with
      | [l0; l1; n0; n1] =>
          if l0 + 0x100 * l1 =? N.lxor (n0 + 0x100 * n1) 0xffff
          then match l0 + 0x100 * l1 with
               | 0 => goto (after_block final)
               | len => goto (Stored final len)
               end
          else Raise (ZlibError "invalid stored block lengths")
      | g => goto (StoredLen final g)
      end
  | Stored final todo =>
      Ok ({| ph := match todo - 1 with 0 => after_block final | l => Stored final l end;
             crc := crc32_byte (crc st) n;
             total := (total st + 1) mod 0x100000000 |}, [b])
  | Check got =>
      match got ++ [n] with
      | [c0; c1; c2; c3] =>
          if le32 c0 c1 c2 c3 =? N.lxor (crc st) 0xffffffff then goto (Length [])
          else Raise (ZlibError "incorrect data check")
      | g => goto (Check g)
      end
  | Length got =>
      match got ++ [n] with
      | [s0; s1; s2; s3] =>
          if le32 s0 s1 s2 s3 =? total st then goto Done
          else Raise (ZlibError "incorrect length check")
      | g => goto (Length g)
      end
  | Done => goto Done
  end.

Fixpoint run (st : state) (chunk : bytes) : Result (state * bytes) :=
  match chunk with
  | [] => Ok (st, [])
  | b :: chunk' =>
      match step st b with
      | Raise e => Raise e
      | Ok (st', out) =>
          match run st' chunk' with
          | Raise e => Raise e
          | Ok (st'', out') => Ok (st'', out ++ out')
          end
      end
  end.

Definition inflater : Decompressor :=
  {| dstate := state; decompressobj := start; decompress := run |}.

(** [gzip.compress(data, 0, mtime=0)] for at most 65535 bytes of data:
    one final stored block. *)
Definition crc32 (data : bytes) : N :=
  N.lxor (fold_left (fun c b => crc32_byte c (Byte.to_N b)) data 0xffffffff) 0xffffffff.

Definition le_bytes (k : nat) (n : N) : bytes :=
  map (fun i => default x00 (Byte.of_N (N.land (N.shiftr n (8 * N.of_nat i)) 0xff))) (seq 0 k).

Definition gzip_stored (data : bytes) : bytes :=
  let len := N.of_nat (length data) in
  [x1f; x8b; x08; x00; x00; x00; x00; x00; x04; x03; x01]
    ++ le_bytes 2 len ++ le_bytes 2 (N.lxor len 0xffff)
    ++ data ++ le_bytes 4 (crc32 data) ++ le_bytes 4 len.

(** A member of several stored blocks, each of at most 65535 bytes, the
    last one marked final: what a level-0 writer produces for more data
    than one block holds. *)
Fixpoint stored_blocks (blocks : list bytes) : bytes :=
  match blocks with
  | [] => []
  | block :: rest =>
      let len := N.of_nat (length block) in
      [match rest with [] => x01 | _ => x00 end]
        ++ le_bytes 2 len ++ le_bytes 2 (N.lxor len 0xffff)
        ++ block ++ stored_blocks rest
  end.

Definition gzip_stored_blocks (blocks : list bytes) : bytes :=
  [x1f; x8b; x08; x00; x00; x00; x00; x00; x04; x03]
    ++ stored_blocks blocks
    ++ le_bytes 4 (crc32 (concat blocks))
    ++ le_bytes 4 (N.of_nat (length (concat blocks)) mod 0x100000000).

End StoredGzip.

(** ** modules/feeds/icann.py *)

Module Icann.

(** What the module takes from outside. *)
Record World := {
  (** the Unicode tables behind [str.lower] *)
  unicode_lower : str -> N -> str -> str;
  (** [str(v)] of a value that is not a [str], as an f-string formats it *)
  py_str : json -> str;
  (** [zlib.decompressobj(zlib.MAX_WBITS | 32)] *)
  zlib : Decompressor;
  (** [dotenv_values(".env")] *)
  dotenv_values : list (string * option str);
  (** [json.loads(post_async([url], [payload], headers)[0][1])] *)
  post_async : string -> json -> headers -> Result json;
  (** [json.loads(get_async([url], headers)[url])] *)
  get_async : string -> headers -> Result json;
  (** [get_async_stream(endpoint, headers)]: [None], or the content of
      the temporary file the reply was written to *)
  get_async_stream : str -> headers -> Result (option bytes);
  (** [modules.utils.feeds.generate_hostname_expressions] *)
  generate_hostname_expressions : list str -> Result (gset str);
}.

Section Code.
Context (W : World).

(** [f"{v}"] *)
Definition fstring (v : json) : str :=
  match v with JStr s => s | _ => py_str W v end.

Definition log_unless {Y} (b : bool) (lvl : level) (msg : string) : Eff Y unit :=
  if b then ret tt else emit (Log lvl msg []).

Definition is_str (s : str) (v : json) : bool :=
  match v with JStr s' => bool_decide (s' = s) | _ => false end.

Definition _authenticate (username password : str) : Coro json :=
  let authentication_headers :=
    [("Content-Type", py "application/json"); ("Accept", py "application/json")] in
  let credential := JObj [(py "username", JStr username); (py "password", JStr password)] in
  let authentication_url := "https://account-api.icann.org/api/authenticate" in
  emit (Call (HttpPost authentication_url credential authentication_headers));;
  body ← lift (post_async W authentication_url credential authentication_headers);
  match body with
  | JObj items =>
      log_unless (bool_decide (is_Some (dict_get (py "accessToken") items)))
        ERROR "Failed to authenticate ICANN user";;
      mret (default (JStr []) (dict_get (py "accessToken") items))
  | JArr items =>
      log_unless (existsb (is_str (py "accessToken")) items)
        ERROR "Failed to authenticate ICANN user";;
      raise AttributeError
  | JStr s =>
      log_unless (contains (py "accessToken") s)
        ERROR "Failed to authenticate ICANN user";;
      raise AttributeError
  | JNull | JBool _ | JNum _ => raise TypeError
  end.

Definition _get_approved_endpoints (access_token : json) : Coro (list json) :=
  let links_url := "https://czds-api.icann.org/czds/downloads/links" in
  let h := [("Content-Type", py "application/json");
            ("Connection", py "keep-alive");
            ("Accept", py "application/json");
            ("Authorization", py "Bearer " ++ fstring access_token)] in
  emit (Call (HttpGet links_url h));;
  body ← lift (get_async W links_url h);
  match body with
  | JArr items => mret items
  | _ => emit (Log WARNING "No user-accessible zone files found." []);; mret []
  end.

(** The filter and the element of the comprehension of line 153, which
    is also the test and the element of lines 157-158. *)
Definition url_of_line (line : str) : option str :=
  match split line with
  | [] => None
  | first :: _ =>
      match rstrip (py ".") (lower (unicode_lower W) first) with
      | [] => None
      | url => Some url
      end
  end.

(** The [for chunk in ...] loop of lines 139-153: the batches it
    yields, and [last_line] when the chunks are exhausted. *)
Fixpoint read_chunks (d : dstate (zlib W)) (last_line : str) (chunks : list bytes)
  : Eff (list str) str :=
  match chunks with
  | [] => mret last_line
  | chunk :: rest =>
      '(d', raw) ← lift (decompress (zlib W) d chunk);
      current_chunk_string ← lift (decode raw);
      let current_chunk_string := last_line ++ current_chunk_string in
      let lines := splitlines current_chunk_string in
      '(lines, last_line) ← lift (pop lines);
      emit (Yield (omap url_of_line lines));;
      read_chunks d' last_line rest
  end.

(** Lines 136-158, for the chunks the reads return. *)
Definition extract_from_chunks (chunks : list bytes) : Eff (list str) unit :=
  last_line ← read_chunks (decompressobj (zlib W)) [] chunks;
  match url_of_line last_line with
  | Some url => emit (Yield [url])
  | None => mret tt
  end.

(** Lines 130-158: the chunks are the successive reads of 1024**2 bytes
    of the temporary file, up to the empty read (a file object is true,
    so the [iter] of line 139 always reads). *)
Definition extract_zonefile_urls (endpoint : str) (h : headers) : Eff (list str) unit :=
  emit (Call (HttpGetStream endpoint h));;
  temp_file ← lift (get_async_stream W endpoint h);
  match temp_file with
  | None => emit (Yield [])
  | Some content => extract_from_chunks (pieces (1024 ^ 2) content)
  end.

(** The [try] of lines 106-111 around the consumption of the inner
    generator: each batch goes through [generate_hostname_expressions]
    and is yielded; the first exception, of the inner generator or of
    the helper, ends the loop in the handler. *)
Fixpoint relay (handler : exn -> Eff (gset str) unit)
    (inner : list (event (list str))) (ending : Result unit) : Eff (gset str) unit :=
  match inner with
  | [] => match ending with Ok _ => mret tt | Raise error => handler error end
  | Yield batch :: inner' =>
      match generate_hostname_expressions W batch with
      | Ok hostnames => emit (Yield hostnames);; relay handler inner' ending
      | Raise error => handler error
      end
  | Log lvl msg args :: inner' => emit (Log lvl msg args);; relay handler inner' ending
  | Call c :: inner' => emit (Call c);; relay handler inner' ending
  end.

Definition icann_headers (access_token : json) : headers :=
  [("Content-Type", py "application/json");
   ("Connection", py "keep-alive");
   ("Cache-Control", py "no-cache");
   ("Accept", py "text/event-stream");
   ("Accept-Encoding", py "gzip");
   ("Authorization", py "Bearer " ++ fstring access_token)].

(** The [except] clause of lines 109-111. *)
Definition on_failure (endpoint : str) (error : exn) : Eff (gset str) unit :=
  emit (Log WARNING "Failed to retrieve ICANN list %s | %s" [AStr endpoint; AExn error]);;
  emit (Yield ∅).

Definition _get_icann_domains (endpoint : str) (access_token : json) : Eff (gset str) unit :=
  let url_generator := extract_zonefile_urls endpoint (icann_headers access_token) in
  relay (on_failure endpoint) url_generator.1 url_generator.2.

(** The jobs of a feed: the producer, the logical update time, the
    table, and the keyword arguments of the producer. *)
Inductive producer := get_icann_domains.

Record job := {
  job_producer : producer;
  job_update_time : Z;
  job_db_filename : str;
  job_endpoint : str;
  job_access_token : json;
}.

Record parser_args := { sources : list string; fetch : bool }.

Record ICANN := { db_filenames : list str; jobs : list job }.

(** [str(dotenv_values(".env").get(key, ""))] *)
Definition env_str (key : string) : str :=
  match dict_get key (dotenv_values W) with
  | Some (Some v) => v
  | Some None => py "None"
  | None => []
  end.

(** [url.rsplit('/', 1)[-1].rsplit('.')[-2]], with the url it names. *)
Definition zone_of (url : json) : Result (str * str) :=
  match url with
  | JStr u =>
      match rev (split_on 0x2e (List.last (split_on 0x2f u) [])) with
      | _ :: zone :: _ => Ok (py "icann_" ++ zone, u)
      | _ => Raise IndexError
      end
  | _ => Raise AttributeError
  end.

Definition __init__ (args : parser_args) (update_time : Z) : Coro ICANN :=
  let username := env_str "ICANN_ACCOUNT_USERNAME" in
  let password := env_str "ICANN_ACCOUNT_PASSWORD" in
  if bool_decide ("icann" ∈ sources args) then
    access_token ← _authenticate username password;
    endpoints ← _get_approved_endpoints access_token;
    named ← lift (comprehension zone_of endpoints);
    mret {| db_filenames := named.*1;
            jobs := if fetch args
                    then map (fun '(db_filename, endpoint) =>
                                {| job_producer := get_icann_domains;
                                   job_update_time := update_time;
                                   job_db_filename := db_filename;
                                   job_endpoint := endpoint;
                                   job_access_token := access_token |}) named
                    else [] |}
  else mret {| db_filenames := []; jobs := [] |}.

(** How a job is run: the producer applied to its keyword arguments. *)
Definition run_job (j : job) : Eff (gset str) unit :=
  match job_producer j with
  | get_icann_domains => _get_icann_domains (job_endpoint j) (job_access_token j)
  end.

End Code.

End Icann.

(** ** main.py *)

Module Main.

(** Modelled from the spec: the class [SafeBrowsing] of the module
    [safebrowsing], which is not among the sources.  Section 4.5: the
    candidates are cut into batches of the vendor's maximum size; the
    reply to a batch is parsed into the hostnames of that batch which
    the vendor flagged; a batch whose request fails contributes nothing
    and the remaining batches go on; the vendor's verdicts are the union
    of the flagged subsets. *)
Record SafeBrowsing := {
  max_batch_size : N;
  (** one batch request: the hostnames the reply names, or a failure *)
  lookup : list str -> Result (list str);
}.

Definition flagged_in_batch (vendor : SafeBrowsing) (batch : list str) : list str :=
  match lookup vendor batch with
  | Ok reply => filter (fun url => url ∈ reply) batch
  | Raise _ => []
  end.

Definition get_malicious_URLs (vendor : SafeBrowsing) (urls : list str) : list str :=
  concat (map (flagged_in_batch vendor) (pieces (max_batch_size vendor) urls)).

(** [l[-n:]] for a positive [n]. *)
Definition last_n {A} (n : nat) (l : list A) : list A := drop (length l - n) l.

(** [list(set(l))]: the distinct elements, in the order of the set. *)
Definition list_set (l : list str) : list str := elements (list_to_set l : gset str).

Inductive mode := testing | full.

Section Code.
(** [get_top1m_whitelist()] and the two vendors [SafeBrowsing("Google")]
    and [SafeBrowsing("Yandex")]. *)
Variable get_top1m_whitelist : list str.
Variable Google Yandex : SafeBrowsing.

Definition testing_quantity : nat := 1500.

Definition top1m_urls : list str := last_n testing_quantity get_top1m_whitelist.

(** Lines 31-39. *)
Definition malicious_urls : list str :=
  let google_malicious_urls := get_malicious_URLs Google top1m_urls in
  let yandex_malicious_urls := get_malicious_URLs Yandex top1m_urls in
  list_set (google_malicious_urls ++ yandex_malicious_urls).

(** The run: in mode [full] only the database is updated; otherwise the
    result is the pair handed to [write_top1m_malicious_urls_to_file]. *)
Definition main (m : mode) : option (list str * list str) :=
  match m with
  | full => None
  | testing => Some (malicious_urls, top1m_urls)
  end.
End Code.

End Main.

(** ** modules/utils/github.py *)

Module Github.

(** The file system, the [.env] file and the PyGithub objects. *)
Record World := {
  BLOCKLISTS_FOLDER : str;
  os_sep : str;
  (** [open(path).read()] *)
  open_read : str -> Result str;
  dotenv_values : list (string * option str);
  repository : Type;
  git_ref : Type;
  git_tree : Type;
  git_commit : Type;
  file : Type;
  (** [github.Github(access_token).get_user().get_repo(repo_name)] *)
  get_repo : str -> str -> Result repository;
  get_git_ref : repository -> string -> Result git_ref;
  (** [ref.object.sha] *)
  object_sha : git_ref -> str;
  get_git_tree : repository -> str -> Result git_tree;
  create_git_tree : repository -> list (str * str) -> git_tree -> Result git_tree;
  get_git_commit : repository -> str -> Result git_commit;
  create_git_commit : repository -> str -> git_tree -> list git_commit -> Result git_commit;
  (** [commit.sha] *)
  sha : git_commit -> str;
  (** [repo.compare(base, head).files] *)
  compare_files : repository -> string -> str -> Result (list file);
  (** [ref.edit(sha)] *)
  edit : git_ref -> str -> Result unit;
}.

Section Code.
Context (W : World).

(** [d[key]] *)
Definition subscript {V} (d : list (string * V)) (key : string) : Result V :=
  match dict_get key d with
  | Some v => Ok v
  | None => Raise (KeyError key)
  end.

(** The element of the comprehension of lines 33-35. *)
Definition file_name (vendor : str) (suffix : option str) (original_filename : str) : Result str :=
  match split_on 0x5f original_filename with
  | _ :: part :: _ =>
      Ok (vendor ++ py "_" ++ part
            ++ match suffix with
               | None | Some [] => []
               | Some sfx => py "_" ++ sfx
               end
            ++ py ".txt")
  | _ => Raise IndexError
  end.

(** The loop of lines 53-59: an [InputGitTreeElement] (its path and
    content; mode "100644" and type "blob" are constant) for every
    file that is not empty. *)
Fixpoint read_elements (entries : list (str * str)) : Result (list (str * str)) :=
  match entries with
  | [] => Ok []
  | (entry, name) :: entries' =>
      match open_read W entry with
      | Raise e => Raise e
      | Ok data =>
          match read_elements entries' with
          | Raise e => Raise e
          | Ok element_list =>
              Ok (match data with
                  | [] => element_list
                  | _ => (name, data) :: element_list
                  end)
          end
      end
  end.

(** Lines 32-77, the body of the [try]. *)
Definition upload_body (vendor : str) (blocklist_filenames : list str) (suffix : option str)
  : Coro unit :=
  let path_list := map (fun f => BLOCKLISTS_FOLDER W ++ os_sep W ++ f) blocklist_filenames in
  file_names ← lift (comprehension (file_name vendor suffix) blocklist_filenames);
  access_token ← lift (subscript (dotenv_values W) "GITHUB_ACCESS_TOKEN");
  repo_name ← lift (subscript (dotenv_values W) "BLOCKLIST_REPOSITORY_NAME");
  access_token ← lift (match access_token with
                       | Some t => Ok t
                       | None => Raise (ValueError "Access Token missing from environment file")
                       end);
  repo_name ← lift (match repo_name with
                    | Some r => Ok r
                    | None => Raise (ValueError "Blocklist Repository Name missing from environment file")
                    end);
  repo ← lift (get_repo W access_token repo_name);
  let commit_message := py "Update " ++ vendor ++ py " blocklists" in
  main_ref ← lift (get_git_ref W repo "heads/main");
  let main_sha := object_sha W main_ref in
  base_tree ← lift (get_git_tree W repo main_sha);
  element_list ← lift (read_elements (zip path_list file_names));
  '(commit, files_changed) ←
    match element_list with
    | [] => mret (None, [])
    | _ =>
        emit (Call (GitCreateTree element_list));;
        tree ← lift (create_git_tree W repo element_list base_tree);
        parent ← lift (get_git_commit W repo main_sha);
        emit (Call (GitCreateCommit commit_message));;
        commit ← lift (create_git_commit W repo commit_message tree [parent]);
        emit (Call (GitCompare "main" (sha W commit)));;
        files ← lift (compare_files W repo "main" (sha W commit));
        mret (Some commit, files)
    end;
  match files_changed with
  | _ :: _ =>
      match commit with
      | Some commit =>
          emit (Call (GitRefEdit "heads/main" (sha W commit)));;
          lift (edit W main_ref (sha W commit));;
          emit (Log INFO "Updated repository with %s blocklists" [AStr vendor])
      | None => raise NameError
      end
  | [] =>
      match element_list with
      | [] => emit (Log WARNING "%s blocklists are empty, won't update repository" [AStr vendor])
      | _ => emit (Log INFO "No changes found for %s blocklists" [AStr vendor])
      end
  end.

Definition upload_blocklists (vendor : str) (blocklist_filenames : list str) (suffix : option str)
  : Coro unit :=
  try_except (upload_body vendor blocklist_filenames suffix)
    (fun error =>
       emit (Log WARNING "Failed to update repository with %s blocklists" [AStr vendor]);;
       emit (Log WARNING "%s" [ARepr error])).

End Code.

End Github.

(** ** The statements of the specification *)

Import Icann.

(** [concat (yields m)]: the tokens a decoder run emitted, in order. *)
Definition tokens {A} (m : Eff (list str) A) : list str := concat (yields m).

(** The parsed reply of the exchange [_authenticate] performs. *)
Definition auth_reply (W : World) (username password : str) : Result json :=
  post_async W "https://account-api.icann.org/api/authenticate"
    (JObj [(py "username", JStr username); (py "password", JStr password)])
    [("Content-Type", py "application/json"); ("Accept", py "application/json")].

(** The parsed reply of the listing [_get_approved_endpoints] asks for. *)
Definition links_reply (W : World) (access_token : json) : Result json :=
  get_async W "https://czds-api.icann.org/czds/downloads/links"
    [("Content-Type", py "application/json");
     ("Connection", py "keep-alive");
     ("Accept", py "application/json");
     ("Authorization", py "Bearer " ++ fstring W access_token)].

(** The authentication of [ICANN.__init__]. *)
Definition init_authentication (W : World) : Coro json :=
  _authenticate W (env_str W "ICANN_ACCOUNT_USERNAME") (env_str W "ICANN_ACCOUNT_PASSWORD").

(** Section 4.2 as written: a reply without the token field makes
    [authenticate] fail instead of returning a value. *)
Definition auth_error_on_missing_token : Prop :=
  ∀ (W : World) (username password : str) (items : list (str * json)),
    auth_reply W username password = Ok (JObj items) →
    dict_get (py "accessToken") items = None →
    ∃ error, (_authenticate W username password).2 = Raise error.

(** The listing names no endpoint: it is an empty list, or no list. *)
Definition no_endpoint (body : json) : Prop :=
  match body with JArr (_ :: _) => False | _ => True end.

Definition is_list (body : json) : bool :=
  match body with JArr _ => true | _ => false end.

(** Section 4.3 as written: a listing without endpoint is logged. *)
Definition empty_listing_is_logged : Prop :=
  ∀ (W : World) (access_token body : json),
    links_reply W access_token = Ok body →
    no_endpoint body →
    logs (_get_approved_endpoints W access_token) ≠ [].

(** The [Authorization] header of a request. *)
Definition authorization (c : call) : option str :=
  match c with
  | HttpPost _ _ h | HttpGet _ h | HttpGetStream _ h => dict_get "Authorization" h
  | _ => None
  end.

(** The validity of an access token, in seconds from its receipt (the
    docstring of [_authenticate]: it expires in 24 hours). *)
Definition validity : Z := (24 * 3600)%Z.

Definition expired (issued now : Z) : Prop := (issued + validity < now)%Z.

(** The requests a computation started at time [now] sends. *)
Definition requests_at {Y A} (now : Z) (m : Eff Y A) : list (Z * call) :=
  map (pair now) (calls m).

(** Section 3 as written: a job of a feed constructed (and so
    authenticated) at [issued] sends no request under that token once
    the token has expired. *)
Definition no_request_with_expired_token : Prop :=
  ∀ (W : World) (args : parser_args) (update_time issued now : Z)
    (icann : ICANN) (token : json) (j : job) (request : call),
    (__init__ W args update_time).2 = Ok icann →
    (init_authentication W).2 = Ok token →
    j ∈ jobs icann →
    expired issued now →
    (now, request) ∈ requests_at now (run_job W j) →
    authorization request ≠ Some (py "Bearer " ++ fstring W token).

(** [token] is the first whitespace-delimited token of [line]. *)
Definition first_token (line token : str) : Prop :=
  ∃ spaces rest,
    line = spaces ++ token ++ rest
    ∧ Forall (fun c => isspace c = true) spaces
    ∧ token ≠ []
    ∧ Forall (fun c => isspace c = false) token
    ∧ match rest with [] => True | c :: _ => isspace c = true end.

(** [line] holds no token. *)
Definition blank (line : str) : Prop := Forall (fun c => isspace c = true) line.

Definition ends_with_dot (s : str) : Prop := ∃ s', s = s' ++ py ".".

(** [url] is [s] with a single trailing dot stripped. *)
Definition one_dot_stripped (s url : str) : Prop :=
  s = url ++ py "." ∨ (s = url ∧ ¬ ends_with_dot s).

(** [url] is [s] with every trailing dot stripped. *)
Definition all_dots_stripped (s url : str) : Prop :=
  (∃ k, s = url ++ replicate k 0x2e) ∧ ¬ ends_with_dot url.

(** Section 4.1 as written: the token of a line is its first token,
    lowercased, less one trailing dot. *)
Definition token_less_one_dot : Prop :=
  ∀ (W : World) (line url : str),
    url_of_line W line = Some url →
    ∃ token, first_token line token ∧ one_dot_stripped (lower (unicode_lower W) token) url.


(** Section 8 as written, for the chunks the program itself reads from
    the temporary file: the tokens of a reply are those of the reply
    decoded at once. *)
Definition read_size_invisible : Prop :=
  ∀ (W : World) (endpoint : str) (h : headers) (content : bytes),
    get_async_stream W endpoint h = Ok (Some content) →
    tokens (extract_zonefile_urls W endpoint h) = tokens (extract_from_chunks W [content]).

(** The text of each chunk: what the decompressor returns for it, decoded. *)
Fixpoint chunk_texts (W : World) (d : dstate (zlib W)) (chunks : list bytes) : Result (list str) :=
  match chunks with
  | [] => Ok []
  | chunk :: rest =>
      match decompress (zlib W) d chunk with
      | Raise e => Raise e
      | Ok (d', raw) =>
          match decode raw with
          | Raise e => Raise e
          | Ok text =>
              match chunk_texts W d' rest with
              | Raise e => Raise e
              | Ok texts => Ok (text :: texts)
              end
          end
      end
  end.

Definition no_linebreak (s : str) : Prop := Forall (fun c => is_linebreak c = false) s.

(** [s] ends inside a line: it has a last character, which ends no line. *)
Definition open_ended (s : str) : Prop := ∃ s' c, s = s' ++ [c] ∧ is_linebreak c = false.

(** No boundary between two chunks falls before the first character of
    the text or right after the end of a line; [seen] is the text of the
    chunks before.  The last chunk only has to leave the text non-empty. *)
Fixpoint boundaries_inside_lines (seen : str) (texts : list str) : Prop :=
  match texts with
  | [] => True
  | text :: rest =>
      match rest with
      | [] => seen ++ text ≠ []
      | _ => open_ended (seen ++ text) ∧ boundaries_inside_lines (seen ++ text) rest
      end
  end.

(** Section 4.1 as written: a failure of the decoder reaches the caller
    of the producer as a condition of its own, an exception. *)
Definition stream_failure_reaches_caller : Prop :=
  ∀ (W : World) (endpoint : str) (token : json) (error : exn),
    (extract_zonefile_urls W endpoint (icann_headers W token)).2 = Raise error →
    ∃ error', (_get_icann_domains W endpoint token).2 = Raise error'.

(** The batch of hostnames the producer yields for a batch of the decoder. *)
Definition relayed (W : World) (batch : list str) (hostnames : gset str) : Prop :=
  generate_hostname_expressions W batch = Ok hostnames.

Definition is_yield {Y} (ev : event Y) : Prop :=
  match ev with Yield _ => True | _ => False end.

(** The paths [upload_blocklists] reads. *)
Definition blocklist_paths (W : Github.World) (blocklist_filenames : list str) : list str :=
  map (fun f => Github.BLOCKLISTS_FOLDER W ++ Github.os_sep W ++ f) blocklist_filenames.

(** The request of [_authenticate] and the request of
    [_get_approved_endpoints]. *)
Definition auth_request (username password : str) : call :=
  HttpPost "https://account-api.icann.org/api/authenticate"
    (JObj [(py "username", JStr username); (py "password", JStr password)])
    [("Content-Type", py "application/json"); ("Accept", py "application/json")].

Definition links_request (W : World) (access_token : json) : call :=
  HttpGet "https://czds-api.icann.org/czds/downloads/links"
    [("Content-Type", py "application/json");
     ("Connection", py "keep-alive");
     ("Accept", py "application/json");
     ("Authorization", py "Bearer " ++ fstring W access_token)].

(** The request [ICANN.__init__] authenticates with. *)
Definition init_auth_request (W : World) : call :=
  auth_request (env_str W "ICANN_ACCOUNT_USERNAME") (env_str W "ICANN_ACCOUNT_PASSWORD").

Definition is_object (body : json) : bool :=
  match body with JObj _ => true | _ => false end.

(** Text made of ASCII characters. *)
Definition ascii_text (s : str) : Prop := Forall (fun c => c < 0x80) s.

(** The form of an emitted hostname: no space, no ASCII capital, no
    trailing dot, not empty. *)
Definition hostname_form (url : str) : Prop :=
  url ≠ []
  ∧ Forall (fun c => isspace c = false ∧ ¬ (0x41 ≤ c ≤ 0x5a)) url
  ∧ ¬ ends_with_dot url.

(** The first byte of a character of two, three or four bytes. *)
Definition lead_byte (b : N) : Prop := 0xc2 ≤ b ≤ 0xf4.

(** The environment file gives no value for [key]. *)
Definition no_value (W : Github.World) (key : string) : Prop :=
  match dict_get key (Github.dotenv_values W) with Some (Some _) => False | _ => True end.

(** The two warnings of the [except] clause of [upload_blocklists]. *)
Definition failure_logs : list (level * string) :=
  [(WARNING, "Failed to update repository with %s blocklists"); (WARNING, "%s")].

(** *** Concrete environments *)

(** A repository where the comparison reports [changed], and a folder
    where [Google_urls.txt] holds one hostname and every other file is
    empty. *)
Definition remote (changed : list unit) : Github.World := {|
  Github.BLOCKLISTS_FOLDER := py "blocklists";
  Github.os_sep := py "/";
  Github.open_read := fun path =>
    if bool_decide (path = py "blocklists/Google_urls.txt") then Ok (py "bad.example") else Ok [];
  Github.dotenv_values :=
    [("GITHUB_ACCESS_TOKEN", Some (py "ghp")); ("BLOCKLIST_REPOSITORY_NAME", Some (py "blocklists"))];
  Github.repository := unit;
  Github.git_ref := unit;
  Github.git_tree := unit;
  Github.git_commit := unit;
  Github.file := unit;
  Github.get_repo := fun _ _ => Ok tt;
  Github.get_git_ref := fun _ _ => Ok tt;
  Github.object_sha := fun _ => py "0a";
  Github.get_git_tree := fun _ _ => Ok tt;
  Github.create_git_tree := fun _ _ _ => Ok tt;
  Github.get_git_commit := fun _ _ => Ok tt;
  Github.create_git_commit := fun _ _ _ _ => Ok tt;
  Github.sha := fun _ => py "0b";
  Github.compare_files := fun _ _ _ => Ok changed;
  Github.edit := fun _ _ => Ok tt;
|}.

Definition gz_two_lines : bytes :=
  StoredGzip.gzip_stored (ascii_bytes "a.com" ++ [x0a] ++ ascii_bytes "b.com" ++ [x0a]).

(** An environment given by the reply to the authentication, the reply
    to the listing and the answer to every stream request; data is ASCII,
    compressed at level 0, and hostname expressions are the hostnames. *)
Definition world (auth links : json) (stream : Result (option bytes)) : World := {|
  unicode_lower := fun _ c _ => [c];
  py_str := fun _ => py "None";
  zlib := StoredGzip.inflater;
  dotenv_values := [("ICANN_ACCOUNT_USERNAME", Some (py "user")); ("ICANN_ACCOUNT_PASSWORD", Some (py "secret"))];
  post_async := fun _ _ _ => Ok auth;
  get_async := fun _ _ => Ok links;
  get_async_stream := fun _ _ => stream;
  generate_hostname_expressions := fun urls => Ok (list_to_set urls);
|}.

Definition token_reply : json := JObj [(py "accessToken", JStr (py "tok"))].
Definition com_zone : json := JStr (py "https://czds-api.icann.org/czds/downloads/com.zone").

(** A reply cut short in the CRC of its trailer. *)
Definition gz_bad_crc : bytes := take 30 gz_two_lines ++ [x00; x0c; x00; x00; x00].

Definition corrupt_zone : World := world token_reply (JArr [com_zone]) (Ok (Some gz_bad_crc)).

(** The example of section 8: candidates a, b, c in batches of one; the
    first vendor flags a; the second flags b and its request for c fails. *)
Definition vendor1 : Main.SafeBrowsing := {|
  Main.max_batch_size := 1;
  Main.lookup := fun batch => Ok (filter (fun url => url = py "a") batch);
|}.

Definition vendor2 : Main.SafeBrowsing := {|
  Main.max_batch_size := 1;
  Main.lookup := fun batch =>
    if bool_decide (py "c" ∈ batch) then Raise (EnvError "RequestFailed")
    else Ok (filter (fun url => url = py "b") batch);
|}.

(** The two records of the example of section 8, compressed at level 0:
    35 bytes before the second record, the first ending at byte 30. *)
Definition gz_example : bytes :=
  StoredGzip.gzip_stored
    (ascii_bytes "EXAMPLE.COM." ++ [x09] ++ ascii_bytes "A" ++ [x0a]
       ++ ascii_bytes "Foo.Test." ++ [x09] ++ ascii_bytes "NS" ++ [x0a]).

(** [k] records of one owner name, one to a line. *)
Definition records (k : N) (name : string) : bytes :=
  concat (replicate (N.to_nat k) (ascii_bytes name ++ [x0a])).

(** A zone file of 174746 records [a.com] and a last record [b.com],
    compressed at level 0 in 18 stored blocks: 1048590 bytes, of which
    the first 1024**2 end with the newline of the last [a.com]. *)
Definition gz_zone : bytes :=
  StoredGzip.gzip_stored_blocks
    (replicate 17 (records 10000 "a.com") ++ [records 4746 "a.com" ++ records 1 "b.com"]).

Definition big_zone : World := world token_reply (JArr [com_zone]) (Ok (Some gz_zone)).

(** A record whose owner name ends with two dots. *)
Definition two_dots_line : str := py "EXAMPLE.COM.." ++ [0x09] ++ py "A".

(** The two bytes of [é] after an [a], compressed at level 0. *)
Definition gz_accent : bytes := StoredGzip.gzip_stored [x61; xc3; xa9].

(** A repository reached with the environment file [env], where reading
    any blocklist raises [unreadable] when it is given. *)
Definition remote_env (env : list (string * option str)) (unreadable : option exn)
  : Github.World := {|
  Github.BLOCKLISTS_FOLDER := py "blocklists";
  Github.os_sep := py "/";
  Github.open_read := fun _ =>
    match unreadable with Some error => Raise error | None => Ok (py "bad.example") end;
  Github.dotenv_values := env;
  Github.repository := unit;
  Github.git_ref := unit;
  Github.git_tree := unit;
  Github.git_commit := unit;
  Github.file := unit;
  Github.get_repo := fun _ _ => Ok tt;
  Github.get_git_ref := fun _ _ => Ok tt;
  Github.object_sha := fun _ => py "0a";
  Github.get_git_tree := fun _ _ => Ok tt;
  Github.create_git_tree := fun _ _ _ => Ok tt;
  Github.get_git_commit := fun _ _ => Ok tt;
  Github.create_git_commit := fun _ _ _ _ => Ok tt;
  Github.sha := fun _ => py "0b";
  Github.compare_files := fun _ _ _ => Ok [tt];
  Github.edit := fun _ _ => Ok tt;
|}.

Definition full_env : list (string * option str) :=
  [("GITHUB_ACCESS_TOKEN", Some (py "ghp")); ("BLOCKLIST_REPOSITORY_NAME", Some (py "blocklists"))].

(** A feed with one approved zone file, and its one job. *)
Definition one_zone : World := world token_reply (JArr [com_zone]) (Ok None).

Definition fetch_icann : parser_args := {| sources := ["icann"]; fetch := true |}.

Definition com_job : job := {|
  job_producer := get_icann_domains;
  job_update_time := 0;
  job_db_filename := py "icann_com";
  job_endpoint := py "https://czds-api.icann.org/czds/downloads/com.zone";
  job_access_token := JStr (py "tok");
|}.

(** * Properties *)

Ltac eff :=
  repeat (cbn [mbind mret eff_bind eff_ret bind ret emit lift raise fst snd app] in * ).

Lemma yields_yield {Y A} (y : Y) (evs : list (event Y)) (r r' : Result A) :
  yields (Yield y :: evs, r) = y :: yields (evs, r').
Proof. reflexivity. Qed.

Lemma logs_yield {Y A} (y : Y) (evs : list (event Y)) (r r' : Result A) :
  logs (Yield y :: evs, r) = logs (evs, r').
Proof. reflexivity. Qed.

Lemma yields_call {Y A} (c : call) (evs : list (event Y)) (r r' : Result A) :
  yields (Call c :: evs, r) = yields (evs, r').
Proof. reflexivity. Qed.

Lemma logs_call {Y A} (c : call) (evs : list (event Y)) (r r' : Result A) :
  logs (Call c :: evs, r) = logs (evs, r').
Proof. reflexivity. Qed.

(** ** Authentication *)

(** C3, as the code has it: when the parsed reply is an object without
    the field [accessToken], [_authenticate] performs its one exchange,
    logs an error and returns the empty string; it raises nothing. *)
Theorem authenticate_without_token_returns_empty (W : World) (username password : str)
    (items : list (str * json)) :
  auth_reply W username password = Ok (JObj items) →
  dict_get (py "accessToken") items = None →
  (_authenticate W username password).2 = Ok (JStr [])
  ∧ logs (_authenticate W username password) = [(ERROR, "Failed to authenticate ICANN user")]
  ∧ length (calls (_authenticate W username password)) = 1%nat.
Proof.
  unfold auth_reply, _authenticate. intros -> Hnone. eff. rewrite Hnone. repeat split.
Qed.

Lemma authenticate_without_token_returns_empty_witness :
  (_authenticate (world (JObj []) (JArr []) (Ok None)) (py "user") (py "secret")).2 = Ok (JStr [])
  ∧ logs (_authenticate (world (JObj []) (JArr []) (Ok None)) (py "user") (py "secret"))
      = [(ERROR, "Failed to authenticate ICANN user")]
  ∧ length (calls (_authenticate (world (JObj []) (JArr []) (Ok None)) (py "user") (py "secret"))) = 1%nat.
Proof.
  apply (authenticate_without_token_returns_empty
           (world (JObj []) (JArr []) (Ok None)) (py "user") (py "secret") []); reflexivity.
Defined.

(** C3, as the specification words it, fails on the reply [{}]: the
    call returns the empty string and no exception. *)
Lemma auth_error_on_missing_token_fails : ¬ auth_error_on_missing_token.
Proof.
  intros H.
  destruct (H (world (JObj []) (JArr []) (Ok None)) (py "user") (py "secret") [] eq_refl eq_refl)
    as [error Herror].
  vm_compute in Herror. discriminate Herror.
Qed.

(** ** Endpoint discovery *)

Lemma get_approved_endpoints_no_endpoint (W : World) (token body : json) :
  links_reply W token = Ok body →
  no_endpoint body →
  ∃ evs, _get_approved_endpoints W token = (evs, Ok []).
Proof.
  unfold links_reply, _get_approved_endpoints. intros -> Hno. eff.
  destruct body as [| | | |[|]|]; simpl in Hno; try contradiction; eexists; reflexivity.
Qed.

(** C8, as the code has it: when the listing is not a list,
    [_get_approved_endpoints] logs a warning and returns the empty list;
    when it is the empty list, it returns it; in both cases nothing is
    raised and the feed is constructed with no table name and no job. *)
Theorem no_endpoint_gives_no_job (W : World) (args : parser_args) (update_time : Z)
    (token body : json) :
  (init_authentication W).2 = Ok token →
  links_reply W token = Ok body →
  no_endpoint body →
  (_get_approved_endpoints W token).2 = Ok []
  ∧ (is_list body = false →
     logs (_get_approved_endpoints W token) = [(WARNING, "No user-accessible zone files found.")])
  ∧ (__init__ W args update_time).2 = Ok {| db_filenames := []; jobs := [] |}.
Proof.
  intros Hauth Hlinks Hno.
  destruct (get_approved_endpoints_no_endpoint W token body Hlinks Hno) as [evs Hevs].
  split; [by rewrite Hevs|]. split.
  - intros Hlist. unfold links_reply in Hlinks. unfold _get_approved_endpoints.
    rewrite Hlinks. eff. by destruct body.
  - unfold __init__. case_bool_decide; [|reflexivity].
    unfold init_authentication in Hauth.
    destruct (_authenticate W _ _) as [evs0 [tok|e]]; simpl in Hauth; [|discriminate].
    injection Hauth as ->. eff. rewrite Hevs. eff. by destruct (fetch args).
Qed.

Lemma no_endpoint_gives_no_job_witness :
  (_get_approved_endpoints (world token_reply (JObj []) (Ok None)) (JStr (py "tok"))).2 = Ok []
  ∧ (is_list (JObj []) = false →
     logs (_get_approved_endpoints (world token_reply (JObj []) (Ok None)) (JStr (py "tok")))
       = [(WARNING, "No user-accessible zone files found.")])
  ∧ (__init__ (world token_reply (JObj []) (Ok None)) {| sources := ["icann"]; fetch := true |} 0).2
      = Ok {| db_filenames := []; jobs := [] |}.
Proof.
  apply (no_endpoint_gives_no_job (world token_reply (JObj []) (Ok None))
           {| sources := ["icann"]; fetch := true |} 0%Z (JStr (py "tok")) (JObj []));
    [reflexivity | reflexivity | exact I].
Defined.

(** C8, as the specification words it, fails on the empty list: it is
    returned without any log record. *)
Lemma empty_listing_is_logged_fails : ¬ empty_listing_is_logged.
Proof.
  intros H.
  apply (H (world token_reply (JArr []) (Ok None)) (JStr (py "tok")) (JArr []) eq_refl I).
  reflexivity.
Qed.

(** ** The trace of the decoder and of the producer *)

Lemma read_chunks_yields_only (W : World) (chunks : list bytes) :
  ∀ d last_line, Forall is_yield (read_chunks W d last_line chunks).1.
Proof.
  induction chunks as [|chunk rest IH]; intros d last_line; simpl; [constructor|].
  destruct (decompress (zlib W) d chunk) as [[d' raw]|e]; eff; [|constructor].
  destruct (decode raw) as [text|e]; eff; [|constructor].
  destruct (pop (splitlines (last_line ++ text))) as [[lines last]|e]; eff; [|constructor].
  specialize (IH d' last). destruct (read_chunks W d' last rest) as [evs r].
  constructor; [exact I|]. by destruct r.
Qed.

Lemma extract_from_chunks_yields_only (W : World) (chunks : list bytes) :
  Forall is_yield (extract_from_chunks W chunks).1.
Proof.
  unfold extract_from_chunks.
  pose proof (read_chunks_yields_only W chunks (decompressobj (zlib W)) []) as H.
  destruct (read_chunks W _ [] chunks) as [evs [last|e]]; eff; [|done].
  destruct (url_of_line W last); eff; [|by rewrite app_nil_r].
  apply Forall_app. split; [done|]. by constructor.
Qed.

(** The one request of [extract_zonefile_urls] comes first; the rest of
    its trace is made of batches. *)
Lemma extract_zonefile_urls_trace (W : World) (endpoint : str) (h : headers) :
  ∃ evs, (extract_zonefile_urls W endpoint h).1 = Call (HttpGetStream endpoint h) :: evs
         ∧ Forall is_yield evs.
Proof.
  unfold extract_zonefile_urls. eff.
  destruct (get_async_stream W endpoint h) as [[content|]|e]; eff.
  - pose proof (extract_from_chunks_yields_only W (pieces (1024 ^ 2) content)) as H.
    destruct (extract_from_chunks W _) as [evs r]. eexists. split; [reflexivity|done].
  - eexists. split; [reflexivity|]. by constructor.
  - eexists. split; [reflexivity|]. constructor.
Qed.

Lemma relay_calls (W : World) (endpoint : str) (inner : list (event (list str)))
    (ending : Result unit) :
  Forall is_yield inner →
  calls (relay W (on_failure endpoint) inner ending) = [].
Proof.
  induction 1 as [|ev inner Hev _ IH]; simpl.
  - by destruct ending.
  - destruct ev as [batch| |]; simpl in Hev; try contradiction.
    destruct (generate_hostname_expressions W batch); [|reflexivity].
    eff. destruct (relay W _ inner ending) as [evs r]. exact IH.
Qed.

Lemma get_icann_domains_calls (W : World) (endpoint : str) (token : json) :
  calls (_get_icann_domains W endpoint token) = [HttpGetStream endpoint (icann_headers W token)].
Proof.
  unfold _get_icann_domains.
  destruct (extract_zonefile_urls_trace W endpoint (icann_headers W token)) as (evs & -> & Hevs).
  pose proof (relay_calls W endpoint evs (extract_zonefile_urls W endpoint (icann_headers W token)).2 Hevs) as H.
  simpl. eff. destruct (relay W _ evs _) as [evs' r].
  change (calls (Call (HttpGetStream endpoint (icann_headers W token)) :: evs', r))
    with (HttpGetStream endpoint (icann_headers W token) :: calls (evs', r)).
  by rewrite H.
Qed.

(** ** The access token of the jobs *)

Lemma init_jobs_token (W : World) (args : parser_args) (update_time : Z) (icann : ICANN)
    (token : json) (j : job) :
  (__init__ W args update_time).2 = Ok icann →
  (init_authentication W).2 = Ok token →
  j ∈ jobs icann →
  job_producer j = get_icann_domains ∧ job_access_token j = token.
Proof.
  unfold __init__, init_authentication. intros Hinit Hauth Hj.
  case_bool_decide.
  2:{ injection Hinit as <-. by apply elem_of_nil in Hj. }
  destruct (_authenticate W _ _) as [evs0 [tok|e]]; simpl in Hauth; [|discriminate].
  injection Hauth as ->. eff.
  destruct (_get_approved_endpoints W token) as [evs1 [endpoints|e]]; eff; [|discriminate].
  destruct (comprehension zone_of endpoints) as [named|e]; eff; [|discriminate].
  injection Hinit as <-. simpl in Hj. destruct (fetch args); [|by apply elem_of_nil in Hj].
  apply list_elem_of_fmap in Hj as ([db url] & -> & _). done.
Qed.

(** C7, as the code has it: every request of a job carries the access
    token obtained by the one authentication of the construction of the
    feed, at whatever time the job is run; the code keeps no time of
    issue, tests no validity and authenticates once. *)
Theorem job_requests_carry_construction_token (W : World) (args : parser_args)
    (update_time : Z) (icann : ICANN) (token : json) (j : job) :
  (__init__ W args update_time).2 = Ok icann →
  (init_authentication W).2 = Ok token →
  j ∈ jobs icann →
  ∀ now : Z,
    requests_at now (run_job W j) = [(now, HttpGetStream (job_endpoint j) (icann_headers W token))]
    ∧ authorization (HttpGetStream (job_endpoint j) (icann_headers W token))
      = Some (py "Bearer " ++ fstring W token).
Proof.
  intros Hinit Hauth Hj now.
  destruct (init_jobs_token W args update_time icann token j Hinit Hauth Hj) as [Hp Ht].
  split; [|reflexivity].
  unfold requests_at, run_job. rewrite Hp, Ht, get_icann_domains_calls. reflexivity.
Qed.

Lemma job_requests_carry_construction_token_witness :
  requests_at (25 * 3600) (run_job one_zone com_job)
    = [((25 * 3600)%Z, HttpGetStream (job_endpoint com_job) (icann_headers one_zone (JStr (py "tok"))))]
  ∧ authorization (HttpGetStream (job_endpoint com_job) (icann_headers one_zone (JStr (py "tok"))))
    = Some (py "Bearer " ++ fstring one_zone (JStr (py "tok"))).
Proof.
  apply (job_requests_carry_construction_token one_zone fetch_icann 0%Z
           {| db_filenames := [py "icann_com"]; jobs := [com_job] |} (JStr (py "tok")) com_job);
    [reflexivity | reflexivity | apply list_elem_of_here].
Defined.

(** C7, as the specification words it, fails: the job of a feed
    authenticated at time 0 and run 25 hours later sends its request
    under the token of time 0. *)
Lemma no_request_with_expired_token_fails : ¬ no_request_with_expired_token.
Proof.
  intros H.
  apply (H one_zone fetch_icann 0%Z 0%Z (25 * 3600)%Z
           {| db_filenames := [py "icann_com"]; jobs := [com_job] |} (JStr (py "tok")) com_job
           (HttpGetStream (job_endpoint com_job) (icann_headers one_zone (JStr (py "tok"))))).
  - reflexivity.
  - reflexivity.
  - apply list_elem_of_here.
  - unfold expired, validity. lia.
  - unfold requests_at, run_job. cbn [com_job job_producer job_endpoint job_access_token].
    rewrite get_icann_domains_calls. apply list_elem_of_here.
  - reflexivity.
Qed.

(** ** Failure of the stream *)

Lemma relay_failure (W : World) (endpoint : str) (inner : list (event (list str))) (error : exn) :
  Forall is_yield inner →
  (relay W (on_failure endpoint) inner (Raise error)).2 = Ok tt
  ∧ logs (relay W (on_failure endpoint) inner (Raise error))
    = [(WARNING, "Failed to retrieve ICANN list %s | %s")]
  ∧ ∃ emitted,
      yields (relay W (on_failure endpoint) inner (Raise error)) = emitted ++ [∅]
      ∧ Forall2 (relayed W) (take (length emitted) (yields (inner, Raise (A:=unit) error))) emitted
      ∧ (Forall (fun batch => is_Ok (generate_hostname_expressions W batch) = true)
           (yields (inner, Raise (A:=unit) error)) →
         length emitted = length (yields (inner, Raise (A:=unit) error))).
Proof.
  induction 1 as [|ev inner Hev _ IH]; simpl.
  - repeat split. exists []. repeat split. constructor.
  - destruct ev as [batch| |]; simpl in Hev; try contradiction.
    destruct (generate_hostname_expressions W batch) as [hostnames|e] eqn:Hghe.
    + destruct IH as (Hres & Hlogs & emitted & Hyields & Hrel & Hall).
      eff. destruct (relay W _ inner _) as [evs r].
      split; [exact Hres|]. split; [by rewrite (logs_yield _ _ _ r)|].
      exists (hostnames :: emitted). split; [|split].
      * by rewrite (yields_yield _ _ _ r), Hyields.
      * rewrite (yields_yield _ _ _ (Raise error)). simpl. constructor; [exact Hghe|exact Hrel].
      * rewrite (yields_yield _ _ _ (Raise error)). intros Hok. simpl. f_equal. apply Hall.
        by apply Forall_cons_1 in Hok as [_ ?].
    + repeat split. exists []. repeat split; [constructor|].
      rewrite (yields_yield _ _ _ (Raise error)). intros Hok. apply Forall_cons_1 in Hok as [Hb _].
      rewrite Hghe in Hb. discriminate.
Qed.

(** C5, as the code has it: when the decoder fails, the producer has
    yielded the batches the decoder emitted before the failure, in order;
    it then logs one warning, yields one empty batch and ends normally:
    no exception reaches its caller and no further batch follows. *)
Theorem stream_failure_ends_with_empty_batch (W : World) (endpoint : str) (token : json)
    (error : exn) :
  (extract_zonefile_urls W endpoint (icann_headers W token)).2 = Raise error →
  (_get_icann_domains W endpoint token).2 = Ok tt
  ∧ logs (_get_icann_domains W endpoint token)
    = [(WARNING, "Failed to retrieve ICANN list %s | %s")]
  ∧ ∃ emitted,
      yields (_get_icann_domains W endpoint token) = emitted ++ [∅]
      ∧ Forall2 (relayed W)
          (take (length emitted) (yields (extract_zonefile_urls W endpoint (icann_headers W token))))
          emitted
      ∧ (Forall (fun batch => is_Ok (generate_hostname_expressions W batch) = true)
           (yields (extract_zonefile_urls W endpoint (icann_headers W token))) →
         length emitted = length (yields (extract_zonefile_urls W endpoint (icann_headers W token)))).
Proof.
  intros Hfail. unfold _get_icann_domains.
  destruct (extract_zonefile_urls_trace W endpoint (icann_headers W token)) as (evs & Hevs & Hy).
  destruct (extract_zonefile_urls W endpoint (icann_headers W token)) as [ievs ir].
  simpl in Hfail, Hevs. subst ievs ir.
  destruct (relay_failure W endpoint evs error Hy) as (Hres & Hlogs & emitted & Hyields & Hrel & Hall).
  cbn [fst snd relay]. eff.
  destruct (relay W (on_failure endpoint) evs (Raise error)) as [oevs r].
  split; [exact Hres|]. split; [by rewrite (logs_call _ _ _ r)|].
  exists emitted. rewrite (yields_call _ _ _ r), (yields_call _ _ _ (Raise error)).
  done.
Qed.

Lemma stream_failure_ends_with_empty_batch_witness :
  (_get_icann_domains corrupt_zone (job_endpoint com_job) (JStr (py "tok"))).2 = Ok tt
  ∧ logs (_get_icann_domains corrupt_zone (job_endpoint com_job) (JStr (py "tok")))
    = [(WARNING, "Failed to retrieve ICANN list %s | %s")]
  ∧ ∃ emitted,
      yields (_get_icann_domains corrupt_zone (job_endpoint com_job) (JStr (py "tok"))) = emitted ++ [∅]
      ∧ Forall2 (relayed corrupt_zone)
          (take (length emitted)
             (yields (extract_zonefile_urls corrupt_zone (job_endpoint com_job)
                        (icann_headers corrupt_zone (JStr (py "tok"))))))
          emitted
      ∧ (Forall (fun batch => is_Ok (generate_hostname_expressions corrupt_zone batch) = true)
           (yields (extract_zonefile_urls corrupt_zone (job_endpoint com_job)
                      (icann_headers corrupt_zone (JStr (py "tok"))))) →
         length emitted
         = length (yields (extract_zonefile_urls corrupt_zone (job_endpoint com_job)
                             (icann_headers corrupt_zone (JStr (py "tok")))))).
Proof.
  apply (stream_failure_ends_with_empty_batch corrupt_zone (job_endpoint com_job) (JStr (py "tok"))
           (ZlibError "incorrect data check")).
  vm_compute. reflexivity.
Defined.

(** C5, as the specification words it, fails: on a reply whose CRC is
    wrong the decoder raises and the producer ends normally. *)
Lemma stream_failure_reaches_caller_fails : ¬ stream_failure_reaches_caller.
Proof.
  intros H.
  destruct (H corrupt_zone (job_endpoint com_job) (JStr (py "tok"))
              (ZlibError "incorrect data check")) as [error' Herror'].
  - vm_compute. reflexivity.
  - vm_compute in Herror'. discriminate Herror'.
Qed.

(** ** Publication *)

Section Publication.
Import Github.
Context (W : Github.World).

Lemma read_elements_nonempty (entries : list (str * str)) :
  ∀ element_list, read_elements W entries = Ok element_list →
                  Forall (fun element => element.2 ≠ []) element_list.
Proof.
  induction entries as [|[entry name] entries IH]; simpl; intros element_list Hread.
  - injection Hread as <-. constructor.
  - destruct (open_read W entry) as [data|e]; [|discriminate].
    destruct (read_elements W entries) as [rest|e]; [|discriminate].
    injection Hread as <-. specialize (IH rest eq_refl).
    destruct data; [exact IH|]. by constructor.
Qed.

Lemma read_elements_all_empty (entries : list (str * str)) :
  (∀ entry, entry ∈ entries.*1 → open_read W entry = Ok []) →
  read_elements W entries = Ok [].
Proof.
  induction entries as [|[entry name] entries IH]; simpl; intros Hempty; [reflexivity|].
  rewrite (Hempty entry) by apply list_elem_of_here.
  rewrite IH; [reflexivity|]. intros entry' Hin. apply Hempty. by apply list_elem_of_further.
Qed.

Lemma fst_zip_sub {A B} (l : list A) (k : list B) (x : A) :
  x ∈ (zip l k).*1 → x ∈ l.
Proof.
  revert k. induction l as [|a l IH]; intros [|b k]; simpl; intros Hin;
    try by apply elem_of_nil in Hin.
  apply elem_of_cons in Hin as [->|Hin]; [apply list_elem_of_here|].
  apply list_elem_of_further. by apply (IH k).
Qed.

Ltac step_body :=
  match goal with
  | |- context [match ?x with _ => _ end] =>
      lazymatch x with
      | context [match _ with _ => _ end] => fail
      | _ => destruct x eqn:?
      end
  end; eff.

Ltac in_trace H :=
  repeat (apply elem_of_cons in H as [H|H]); try discriminate H;
  try (by apply elem_of_nil in H).

Ltac run_body :=
  unfold upload_blocklists, try_except, upload_body; eff; repeat step_body.

Lemma tree_has_no_empty_file (vendor : str) (blocklist_filenames : list str) (suffix : option str)
    (elements : list (str * str)) :
  GitCreateTree elements ∈ calls (upload_blocklists W vendor blocklist_filenames suffix) →
  Forall (fun element => element.2 ≠ []) elements.
Proof.
  revert elements. run_body.
  all: intros elements Hin; cbn in Hin; in_trace Hin.
  all: injection Hin as ->; eapply read_elements_nonempty; eassumption.
Qed.

Lemma push_needs_changed_files (vendor : str) (blocklist_filenames : list str) (suffix : option str)
    (ref : string) (head : str) :
  GitRefEdit ref head ∈ calls (upload_blocklists W vendor blocklist_filenames suffix) →
  ref = "heads/main"
  ∧ ∃ repo files, compare_files W repo "main" head = Ok files ∧ files ≠ [].
Proof.
  revert ref head. run_body.
  all: intros ref head Hin; cbn in Hin; in_trace Hin.
  all: injection Hin as -> ->; split; [reflexivity|]; do 2 eexists; split; [eassumption|done].
Qed.

Lemma empty_files_no_call (vendor : str) (blocklist_filenames : list str) (suffix : option str) :
  (∀ path, path ∈ blocklist_paths W blocklist_filenames → open_read W path = Ok []) →
  calls (upload_blocklists W vendor blocklist_filenames suffix) = [].
Proof.
  intros Hempty.
  assert (∀ names, read_elements W (zip (blocklist_paths W blocklist_filenames) names) = Ok [])
    as Hread.
  { intros names. apply read_elements_all_empty. intros entry Hin.
    apply Hempty. by apply fst_zip_sub in Hin. }
  unfold blocklist_paths in Hread. run_body.
  all: try reflexivity.
  all: match goal with
       | H : read_elements W _ = Ok (_ :: _) |- _ => by rewrite Hread in H
       end.
Qed.

Lemma unchanged_no_push (vendor : str) (blocklist_filenames : list str) (suffix : option str)
    (ref : string) (head : str) :
  (∀ repo base head', compare_files W repo base head' = Ok []) →
  GitRefEdit ref head ∉ calls (upload_blocklists W vendor blocklist_filenames suffix).
Proof.
  intros Hsame Hin.
  apply push_needs_changed_files in Hin as (_ & repo & files & Hcmp & Hne).
  rewrite Hsame in Hcmp. by injection Hcmp as <-.
Qed.

(** C10: whatever the vendor, the file names and the suffix, and
    whatever a file read, a lookup in the environment file or an operation
    on the repository raises, [upload_blocklists] returns normally; the
    exception of the body is logged by two warnings, the second with its
    [repr]. *)
Theorem upload_blocklists_never_raises (vendor : str) (blocklist_filenames : list str)
    (suffix : option str) :
  (upload_blocklists W vendor blocklist_filenames suffix).2 = Ok tt
  ∧ ∀ error, (upload_body W vendor blocklist_filenames suffix).2 = Raise error →
      (upload_blocklists W vendor blocklist_filenames suffix).1
      = (upload_body W vendor blocklist_filenames suffix).1
          ++ [Log WARNING "Failed to update repository with %s blocklists" [AStr vendor];
              Log WARNING "%s" [ARepr error]].
Proof.
  unfold upload_blocklists, try_except.
  destruct (upload_body W vendor blocklist_filenames suffix) as [evs [[]|e]]; simpl.
  - split; [reflexivity|]. intros error Herror. discriminate Herror.
  - split; [reflexivity|]. intros error Herror. by injection Herror as ->.
Qed.

(** C9: the tree sent to the repository holds only files whose content
    is not empty; the branch [main] is moved only to a commit for which
    the comparison with [main] reports changed files; when every file is
    empty nothing is sent at all, and when the comparison reports no
    changed file [main] is not moved. *)
Theorem publication_skips_empty_and_unchanged (vendor : str) (blocklist_filenames : list str)
    (suffix : option str) :
  (∀ elements, GitCreateTree elements ∈ calls (upload_blocklists W vendor blocklist_filenames suffix) →
     Forall (fun element => element.2 ≠ []) elements)
  ∧ (∀ ref head, GitRefEdit ref head ∈ calls (upload_blocklists W vendor blocklist_filenames suffix) →
       ref = "heads/main"
       ∧ ∃ repo files, compare_files W repo "main" head = Ok files ∧ files ≠ [])
  ∧ ((∀ path, path ∈ blocklist_paths W blocklist_filenames → open_read W path = Ok []) →
       calls (upload_blocklists W vendor blocklist_filenames suffix) = [])
  ∧ ((∀ repo base head, compare_files W repo base head = Ok []) →
       ∀ ref head, GitRefEdit ref head ∉ calls (upload_blocklists W vendor blocklist_filenames suffix)).
Proof.
  split; [|split; [|split]].
  - apply tree_has_no_empty_file.
  - apply push_needs_changed_files.
  - apply empty_files_no_call.
  - intros Hsame ref head. by apply unchanged_no_push.
Qed.

End Publication.

(** ** Lookup and union *)

Lemma elem_of_concat {A} (ls : list (list A)) (x : A) :
  x ∈ concat ls ↔ ∃ l, l ∈ ls ∧ x ∈ l.
Proof.
  induction ls as [|l ls IH]; simpl.
  - split; [by intros ?%elem_of_nil|]. by intros (? & ?%elem_of_nil & _).
  - rewrite elem_of_app, IH. split.
    + intros [?|(l' & ? & ?)]; [exists l|exists l']; split; try done.
      * apply list_elem_of_here.
      * by apply list_elem_of_further.
    + intros (l' & [->|?]%elem_of_cons & ?); eauto.
Qed.

Lemma pieces_from_concat {A} (n : N) (l : list A) :
  ∀ room cur, concat (pieces_from n room cur l) = rev cur ++ l.
Proof.
  induction l as [|x l IH]; intros room cur; simpl.
  - destruct cur; simpl; by rewrite ?app_nil_r.
  - destruct (room =? 0); simpl; rewrite IH; simpl.
    + reflexivity.
    + by rewrite <- app_assoc.
Qed.

Lemma pieces_concat {A} (n : N) (l : list A) : n ≠ 0 → concat (pieces n l) = l.
Proof.
  intros Hn. unfold pieces. destruct (N.eqb_spec n 0) as [|_]; [done|].
  apply pieces_from_concat.
Qed.

Lemma pieces_elem {A} (n : N) (l batch : list A) (x : A) :
  batch ∈ pieces n l → x ∈ batch → x ∈ l.
Proof.
  intros Hbatch Hx. unfold pieces in Hbatch.
  destruct (N.eqb_spec n 0) as [|Hn]; [by apply elem_of_nil in Hbatch|].
  rewrite <- (pieces_concat n l Hn). apply elem_of_concat. exists batch.
  split; [|done]. unfold pieces. by destruct (N.eqb_spec n 0).
Qed.

Section Lookup.
Import Main.

Lemma flagged_in_batch_elem (vendor : SafeBrowsing) (batch : list str) (url : str) :
  url ∈ flagged_in_batch vendor batch
  ↔ url ∈ batch ∧ ∃ reply, lookup vendor batch = Ok reply ∧ url ∈ reply.
Proof.
  unfold flagged_in_batch. destruct (lookup vendor batch) as [reply|e].
  - rewrite list_elem_of_filter. split.
    + intros [? ?]. eauto.
    + intros [? (reply' & [= <-] & ?)]. done.
  - split; [by intros ?%elem_of_nil|]. by intros [_ (? & [=] & _)].
Qed.

Lemma get_malicious_URLs_elem (vendor : SafeBrowsing) (urls : list str) (url : str) :
  url ∈ get_malicious_URLs vendor urls
  ↔ ∃ batch reply, batch ∈ pieces (max_batch_size vendor) urls
                   ∧ lookup vendor batch = Ok reply ∧ url ∈ batch ∧ url ∈ reply.
Proof.
  unfold get_malicious_URLs. rewrite elem_of_concat. split.
  - intros (flagged & Hin & Hurl). apply list_elem_of_fmap in Hin as (batch & -> & Hbatch).
    apply flagged_in_batch_elem in Hurl as (? & reply & ? & ?). eauto 10.
  - intros (batch & reply & Hbatch & Hreply & ? & ?).
    exists (flagged_in_batch vendor batch). split.
    + apply list_elem_of_fmap. eauto.
    + apply flagged_in_batch_elem. eauto.
Qed.

Lemma get_malicious_URLs_sub (vendor : SafeBrowsing) (urls : list str) (url : str) :
  url ∈ get_malicious_URLs vendor urls → url ∈ urls.
Proof.
  intros (batch & reply & Hbatch & _ & Hurl & _)%get_malicious_URLs_elem.
  by eapply pieces_elem.
Qed.

Lemma list_set_elem (l : list str) (x : str) : x ∈ list_set l ↔ x ∈ l.
Proof. unfold list_set. rewrite elem_of_elements. apply elem_of_list_to_set. Qed.

Lemma last_n_sub {A} (n : nat) (l : list A) (x : A) : x ∈ last_n n l → x ∈ l.
Proof.
  unfold last_n. intros Hx. rewrite <- (take_drop (length l - n) l).
  apply elem_of_app. by right.
Qed.

(** C4: the final list holds every hostname once; a hostname is in it
    exactly when one of the two vendors' verdicts holds it; and a vendor's
    verdicts hold a hostname exactly when the reply to one of its batches
    that did not fail names it, so that a failed batch adds nothing. *)
Theorem malicious_urls_is_union (whitelist : list str) (Google Yandex : SafeBrowsing) :
  NoDup (malicious_urls whitelist Google Yandex)
  ∧ (∀ url, url ∈ malicious_urls whitelist Google Yandex
            ↔ url ∈ get_malicious_URLs Google (top1m_urls whitelist)
              ∨ url ∈ get_malicious_URLs Yandex (top1m_urls whitelist))
  ∧ (∀ vendor url,
       url ∈ get_malicious_URLs vendor (top1m_urls whitelist)
       ↔ ∃ batch reply, batch ∈ pieces (max_batch_size vendor) (top1m_urls whitelist)
                        ∧ lookup vendor batch = Ok reply ∧ url ∈ batch ∧ url ∈ reply)
  ∧ malicious_urls [py "a"; py "b"; py "c"] vendor1 vendor2 ≡ₚ [py "a"; py "b"].
Proof.
  split; [|split; [|split]].
  - unfold malicious_urls, list_set. apply NoDup_elements.
  - intros url. unfold malicious_urls. rewrite list_set_elem. apply elem_of_app.
  - intros vendor url. apply get_malicious_URLs_elem.
  - apply NoDup_Permutation.
    + unfold malicious_urls, list_set. apply NoDup_elements.
    + by apply (bool_decide_unpack _).
    + intros url. unfold malicious_urls. rewrite list_set_elem. by vm_compute.
Qed.

(** C6: every hostname of the final list is one of the candidates handed
    to the vendors (and so of the whitelist), whatever the vendors reply
    and whichever of their requests fail. *)
Theorem malicious_urls_are_candidates (whitelist : list str) (Google Yandex : SafeBrowsing)
    (url : str) :
  url ∈ malicious_urls whitelist Google Yandex →
  url ∈ top1m_urls whitelist ∧ url ∈ whitelist.
Proof.
  unfold malicious_urls. rewrite list_set_elem, elem_of_app.
  intros Hurl. assert (url ∈ top1m_urls whitelist) as Hcand.
  { destruct Hurl as [Hurl|Hurl]; by eapply get_malicious_URLs_sub. }
  split; [exact Hcand|]. by eapply last_n_sub.
Qed.

Lemma malicious_urls_are_candidates_witness :
  py "a" ∈ top1m_urls [py "a"; py "b"; py "c"] ∧ py "a" ∈ [py "a"; py "b"; py "c"].
Proof.
  apply (malicious_urls_are_candidates [py "a"; py "b"; py "c"] vendor1 vendor2 (py "a")).
  unfold malicious_urls. rewrite list_set_elem. vm_compute. apply list_elem_of_here.
Defined.

End Lookup.

(** ** The token of a line *)

Lemma split_nil_blank (line : str) : split line = [] → blank line.
Proof.
  induction line as [|c line IH]; simpl; [constructor|].
  destruct (isspace c) eqn:Hc.
  - intros H. constructor; [exact Hc|by apply IH].
  - destruct line as [|c' line']; [discriminate|].
    destruct (isspace c'); [discriminate|]. by destruct (split (c' :: line')).
Qed.

Lemma split_first_token (line token : str) (more : list str) :
  split line = token :: more → first_token line token.
Proof.
  revert token more. induction line as [|c line IH]; intros token more; simpl; [discriminate|].
  destruct (isspace c) eqn:Hc.
  - intros (spaces & rest & -> & Hsp & Hne & Htok & Hrest)%IH.
    exists (c :: spaces), rest. repeat split; try done. by constructor.
  - destruct line as [|c' line'].
    + intros [= <- <-]. exists [], []. repeat split; try done. by constructor.
    + destruct (isspace c') eqn:Hc'.
      * intros [= <- <-]. exists [], (c' :: line'). repeat split; try done. by constructor.
      * destruct (split (c' :: line')) as [|t ts] eqn:Hsplit.
        { apply split_nil_blank in Hsplit. apply Forall_cons_1 in Hsplit as [Hsp _]. congruence. }
        intros [= <- <-].
        destruct (IH t ts eq_refl) as (spaces & rest & Heq & Hsp & Hne & Htok & Hrest).
        destruct spaces as [|sp spaces].
        -- simpl in Heq. exists [], rest. simpl. rewrite Heq.
           repeat split; try done. by constructor.
        -- injection Heq as <- _. apply Forall_cons_1 in Hsp as [Hsp _]. congruence.
Qed.

Lemma first_token_unique (line token token' : str) :
  first_token line token → first_token line token' → token = token'.
Proof.
  intros (spaces & rest & -> & Hsp & Hne & Htok & Hrest).
  intros (spaces' & rest' & Heq & Hsp' & Hne' & Htok' & Hrest').
  revert spaces' Heq Hsp'. induction Hsp as [|sp spaces Hs _ IH]; intros spaces' Heq Hsp'.
  - destruct spaces' as [|sp' spaces'].
    + simpl in Heq. clear Hsp' Hne Hne'. revert token' Heq Htok'.
      induction Htok as [|c token Hc _ IH]; intros token' Heq Htok'.
      * destruct Htok' as [|c' token' Hc' _]; [done|].
        simpl in Heq. destruct rest; [done|]. injection Heq as -> _. congruence.
      * destruct Htok' as [|c' token' Hc' Htok'].
        -- simpl in Heq. destruct rest'; [done|]. injection Heq as <- _. congruence.
        -- injection Heq as <- Heq. f_equal. by apply IH.
    + destruct token as [|c token]; [done|]. injection Heq as -> _.
      apply Forall_cons_1 in Htok as [Hc _]. apply Forall_cons_1 in Hsp' as [Hc' _]. congruence.
  - destruct spaces' as [|sp' spaces'].
    + destruct token' as [|c' token']; [done|]. injection Heq as -> _.
      apply Forall_cons_1 in Htok' as [Hc' _]. congruence.
    + injection Heq as <- Heq. apply Forall_cons_1 in Hsp' as [_ Hsp'].
      by apply (IH spaces').
Qed.

Lemma rstrip_suffix (chars s : str) :
  ∃ suffix, s = rstrip chars s ++ suffix ∧ Forall (fun c => c ∈ chars) suffix.
Proof.
  induction s as [|c s (suffix & Heq & Hsuffix)]; simpl; [by exists []|].
  destruct (rstrip chars s) as [|x r].
  - case_bool_decide.
    + exists (c :: suffix). simpl in *. split; [by rewrite <- Heq|]. by constructor.
    + exists suffix. simpl in *. split; [by rewrite <- Heq|done].
  - exists suffix. split; [|done]. rewrite Heq at 1. reflexivity.
Qed.

Lemma rstrip_end (chars s prefix : str) (c : N) :
  rstrip chars s = prefix ++ [c] → c ∉ chars.
Proof.
  revert prefix. induction s as [|x s IH]; intros prefix; simpl.
  - by destruct prefix.
  - destruct (rstrip chars s) as [|y r].
    + case_bool_decide; [by destruct prefix|].
      destruct prefix as [|? [|]]; [|done..]. by intros [= <-].
    + destruct prefix as [|p prefix]; [done|]. intros [= <- Heq]. by apply (IH prefix).
Qed.

Lemma rstrip_dots (s : str) : all_dots_stripped s (rstrip (py ".") s).
Proof.
  split.
  - destruct (rstrip_suffix (py ".") s) as (suffix & Heq & Hsuffix).
    exists (length suffix). rewrite Heq at 1. f_equal.
    clear Heq. induction Hsuffix as [|c suffix Hc _ IH]; [reflexivity|].
    simpl. apply list_elem_of_singleton in Hc as ->. by rewrite <- IH.
  - intros (prefix & Heq). apply rstrip_end in Heq. apply Heq, list_elem_of_here.
Qed.

Lemma url_of_line_spec (W : World) (line : str) :
  match url_of_line W line with
  | Some url =>
      url ≠ []
      ∧ ∃ token, first_token line token ∧ all_dots_stripped (lower (unicode_lower W) token) url
  | None =>
      blank line
      ∨ ∃ token, first_token line token ∧ all_dots_stripped (lower (unicode_lower W) token) []
  end.
Proof.
  unfold url_of_line. destruct (split line) as [|token more] eqn:Hsplit.
  - left. by apply split_nil_blank.
  - apply split_first_token in Hsplit.
    pose proof (rstrip_dots (lower (unicode_lower W) token)) as Hstrip.
    destruct (rstrip (py ".") (lower (unicode_lower W) token)) as [|c url].
    + right. eauto.
    + split; [done|]. eauto.
Qed.

Lemma yields_bind {Y A B} (m : Eff Y A) (f : A → Eff Y B) :
  yields (m ≫= f) = yields m ++ match m.2 with Ok a => yields (f a) | Raise _ => [] end.
Proof.
  destruct m as [evs [a|e]]; eff; unfold yields; simpl.
  - destruct (f a) as [evs' r]. simpl. apply omap_app.
  - by rewrite app_nil_r.
Qed.

Lemma omap_url_of_line_elem (W : World) (lines : list str) (url : str) :
  url ∈ omap (url_of_line W) lines → ∃ line, line ∈ lines ∧ url_of_line W line = Some url.
Proof. intros Hurl. by apply list_elem_of_omap in Hurl. Qed.

Lemma read_chunks_tokens (W : World) (chunks : list bytes) (url : str) :
  ∀ d last_line,
    url ∈ concat (yields (read_chunks W d last_line chunks)) →
    ∃ line, url_of_line W line = Some url.
Proof.
  induction chunks as [|chunk rest IH]; intros d last_line; simpl.
  - by intros ?%elem_of_nil.
  - destruct (decompress (zlib W) d chunk) as [[d' raw]|e]; eff; [|by intros ?%elem_of_nil].
    destruct (decode raw) as [text|e]; eff; [|by intros ?%elem_of_nil].
    destruct (pop (splitlines (last_line ++ text))) as [[lines held]|e]; eff;
      [|by intros ?%elem_of_nil].
    specialize (IH d' held). destruct (read_chunks W d' held rest) as [evs r].
    rewrite (yields_yield _ _ _ r). simpl. intros [Hurl|Hurl]%elem_of_app.
    + apply omap_url_of_line_elem in Hurl as (line & _ & Hline). eauto.
    + by apply IH.
Qed.

Lemma extract_from_chunks_tokens (W : World) (chunks : list bytes) (url : str) :
  url ∈ tokens (extract_from_chunks W chunks) → ∃ line, url_of_line W line = Some url.
Proof.
  unfold tokens, extract_from_chunks. rewrite yields_bind, concat_app.
  intros [Hurl|Hurl]%elem_of_app; [by eapply read_chunks_tokens|].
  destruct (read_chunks W _ [] chunks) as [evs [last_line|e]]; simpl in Hurl;
    [|by apply elem_of_nil in Hurl].
  destruct (url_of_line W last_line) as [url'|] eqn:Hlast; [|by apply elem_of_nil in Hurl].
  cbn in Hurl. apply list_elem_of_singleton in Hurl as ->. eauto.
Qed.

Lemma extract_zonefile_urls_tokens (W : World) (endpoint : str) (h : headers) (url : str) :
  url ∈ tokens (extract_zonefile_urls W endpoint h) → ∃ line, url_of_line W line = Some url.
Proof.
  unfold tokens, extract_zonefile_urls. rewrite yields_bind. cbn [emit snd].
  rewrite yields_bind. cbn [lift snd].
  destruct (get_async_stream W endpoint h) as [[content|]|e]; simpl.
  - apply extract_from_chunks_tokens.
  - by intros ?%elem_of_nil.
  - by intros ?%elem_of_nil.
Qed.

(** C2, as the code has it: a line without token is discarded;
    otherwise the token of the line is its first whitespace-delimited
    token, lowercased, with all its trailing dots stripped, and the line
    is discarded when nothing is left.  Every token the decoder emits is
    the token of a line in this sense, and none is the empty string. *)
Theorem emitted_token_is_first_token_lowered_stripped (W : World) :
  (∀ line,
     match url_of_line W line with
     | Some url =>
         url ≠ []
         ∧ ∃ token, first_token line token ∧ all_dots_stripped (lower (unicode_lower W) token) url
     | None =>
         blank line
         ∨ ∃ token, first_token line token ∧ all_dots_stripped (lower (unicode_lower W) token) []
     end)
  ∧ (∀ endpoint h url,
       url ∈ tokens (extract_zonefile_urls W endpoint h) →
       url ≠ []
       ∧ ∃ line token, url_of_line W line = Some url ∧ first_token line token
                       ∧ all_dots_stripped (lower (unicode_lower W) token) url)
  ∧ (∀ chunks url,
       url ∈ tokens (extract_from_chunks W chunks) →
       url ≠ []
       ∧ ∃ line token, url_of_line W line = Some url ∧ first_token line token
                       ∧ all_dots_stripped (lower (unicode_lower W) token) url).
Proof.
  assert (∀ url, (∃ line, url_of_line W line = Some url) →
                 url ≠ []
                 ∧ ∃ line token, url_of_line W line = Some url ∧ first_token line token
                                 ∧ all_dots_stripped (lower (unicode_lower W) token) url) as Hspec.
  { intros url [line Hline]. pose proof (url_of_line_spec W line) as H.
    rewrite Hline in H. destruct H as (Hne & token & Hfirst & Hstrip). eauto 10. }
  split; [apply url_of_line_spec|]. split.
  - intros endpoint h url Hurl. by eapply Hspec, extract_zonefile_urls_tokens.
  - intros chunks url Hurl. by eapply Hspec, extract_from_chunks_tokens.
Qed.

(** C2, as the specification words it, fails on a line whose first token
    ends with two dots: both are stripped. *)
Lemma token_less_one_dot_fails : ¬ token_less_one_dot.
Proof.
  intros H.
  destruct (H one_zone two_dots_line (py "example.com") eq_refl) as (token & Hfirst & Hstrip).
  assert (first_token two_dots_line (py "EXAMPLE.COM..")) as Hfirst'.
  { by apply (split_first_token _ _ [py "A"]). }
  rewrite (first_token_unique _ _ _ Hfirst Hfirst') in Hstrip.
  destruct Hstrip as [Heq|[Heq _]]; vm_compute in Heq; discriminate Heq.
Qed.

Lemma emitted_token_is_first_token_lowered_stripped_witness :
  py "foo.test" ≠ []
  ∧ ∃ line token,
      url_of_line one_zone line = Some (py "foo.test") ∧ first_token line token
      ∧ all_dots_stripped (lower (unicode_lower one_zone) token) (py "foo.test").
Proof.
  apply (proj2 (proj2 (emitted_token_is_first_token_lowered_stripped one_zone))
           [take 22 gz_example; drop 22 gz_example] (py "foo.test")).
  vm_compute. apply list_elem_of_further, list_elem_of_here.
Defined.

(** ** Lines *)

Lemma pop_snoc {A} (init : list A) (x : A) : pop (init ++ [x]) = Ok (init, x).
Proof.
  induction init as [|y init IH]; [reflexivity|].
  simpl. rewrite IH. by destruct init.
Qed.

Lemma pop_ok {A} (l : list A) : l ≠ [] → ∃ init x, l = init ++ [x] ∧ pop l = Ok (init, x).
Proof.
  induction l as [|y l IH]; [done|]. intros _. destruct l as [|z l].
  - by exists [], y.
  - destruct IH as (init & x & Heq & Hpop); [done|].
    exists (y :: init), x. split; [by rewrite Heq|].
    change (pop (y :: z :: l)) with (match pop (z :: l) with
                                     | Ok (init, last) => Ok (y :: init, last)
                                     | Raise e => Raise e
                                     end).
    by rewrite Hpop.
Qed.

Lemma splitlines_nil (s : str) : splitlines s = [] → s = [].
Proof.
  destruct s as [|c s]; [done|]. simpl.
  destruct (is_linebreak c); [done|]. by destruct (splitlines s).
Qed.

Lemma open_ended_cons (c : N) (s : str) : s ≠ [] → open_ended (c :: s) → open_ended s.
Proof.
  intros Hs (s' & x & Heq & Hx). destruct s' as [|y s'].
  - injection Heq as -> ->. done.
  - injection Heq as -> ->. by exists s', x.
Qed.

Lemma open_ended_one (c : N) : open_ended [c] → is_linebreak c = false.
Proof.
  intros (s' & x & Heq & Hx). destruct s' as [|y [|]]; [|done..]. by injection Heq as ->.
Qed.

Lemma open_ended_app (a t : str) : t ≠ [] → open_ended (a ++ t) ↔ open_ended t.
Proof.
  intros Ht. destruct (pop_ok t Ht) as (init & x & -> & _). split.
  - intros (s' & c & Heq & Hc). rewrite app_assoc in Heq.
    apply app_inj_tail in Heq as [_ ->]. by exists init, c.
  - intros (s' & c & Heq & Hc). apply app_inj_tail in Heq as [_ ->].
    exists (a ++ init), c. by rewrite app_assoc.
Qed.

Lemma splitlines_cons (c : N) (s : str) :
  splitlines (c :: s)
  = if is_linebreak c
    then [] :: match s with
               | c' :: s'' => if (c =? 0x0d) && (c' =? 0x0a) then splitlines s'' else splitlines s
               | [] => []
               end
    else match splitlines s with
         | [] => [[c]]
         | l :: ls => (c :: l) :: ls
         end.
Proof. by destruct s. Qed.

(** The text up to a boundary inside a line: its lines but the last are
    complete, and the last one goes on in what follows. *)
Lemma splitlines_open_ended (n : nat) :
  ∀ cur, (length cur ≤ n)%nat → open_ended cur →
    ∃ lines held,
      splitlines cur = lines ++ [held] ∧ open_ended held ∧ no_linebreak held
      ∧ ∀ rest, splitlines (cur ++ rest) = lines ++ splitlines (held ++ rest).
Proof.
  induction n as [|n IH]; intros cur Hlen Hopen.
  { destruct cur; [|simpl in Hlen; lia]. by destruct Hopen as ([|] & ? & ? & _). }
  destruct cur as [|c s]; [by destruct Hopen as ([|] & ? & ? & _)|].
  simpl in Hlen. destruct s as [|c' s'].
  - pose proof (open_ended_one c Hopen) as Hc. exists [], [c].
    split; [simpl; by rewrite Hc|]. split; [done|]. split; [by repeat constructor|].
    intros rest. reflexivity.
  - assert (open_ended (c' :: s')) as Hopen' by by eapply open_ended_cons.
    destruct (is_linebreak c) eqn:Hc.
    + destruct ((c =? 0x0d) && (c' =? 0x0a)) eqn:Hcrlf.
      * destruct s' as [|c'' s''].
        { apply open_ended_one in Hopen'. apply andb_prop in Hcrlf as [_ ->%N.eqb_eq]. done. }
        destruct (IH (c'' :: s'')) as (lines & held & Hsplit & Hheld & Hnb & Hrest).
        { simpl in *. lia. }
        { by eapply open_ended_cons. }
        exists ([] :: lines), held. split; [|split; [done|split; [done|]]].
        -- rewrite splitlines_cons, Hc, Hcrlf, Hsplit. reflexivity.
        -- intros rest.
           change ((c :: c' :: c'' :: s'') ++ rest) with (c :: c' :: (c'' :: s'') ++ rest).
           rewrite splitlines_cons, Hc, Hcrlf, Hrest. reflexivity.
      * destruct (IH (c' :: s')) as (lines & held & Hsplit & Hheld & Hnb & Hrest);
          [simpl in *; lia|done|].
        exists ([] :: lines), held. split; [|split; [done|split; [done|]]].
        -- rewrite splitlines_cons, Hc, Hcrlf, Hsplit. reflexivity.
        -- intros rest. specialize (Hrest rest).
           change ((c :: c' :: s') ++ rest) with (c :: c' :: s' ++ rest).
           rewrite splitlines_cons, Hc, Hcrlf. cbv beta iota.
           change (c' :: s' ++ rest) with ((c' :: s') ++ rest). by rewrite Hrest.
    + destruct (IH (c' :: s')) as (lines & held & Hsplit & Hheld & Hnb & Hrest);
        [simpl in *; lia|done|].
      destruct lines as [|l lines].
      * exists [], (c :: held). split; [|split; [|split]].
        -- rewrite splitlines_cons, Hc, Hsplit. reflexivity.
        -- destruct Hheld as (h' & x & -> & Hx). by exists (c :: h'), x.
        -- by constructor.
        -- intros rest. specialize (Hrest rest).
           change ((c :: c' :: s') ++ rest) with (c :: (c' :: s') ++ rest).
           change ((c :: held) ++ rest) with (c :: held ++ rest).
           rewrite !(splitlines_cons c), Hc, Hrest. reflexivity.
      * exists ((c :: l) :: lines), held. split; [|split; [done|split; [done|]]].
        -- rewrite splitlines_cons, Hc, Hsplit. reflexivity.
        -- intros rest. specialize (Hrest rest).
           change ((c :: c' :: s') ++ rest) with (c :: (c' :: s') ++ rest).
           rewrite splitlines_cons, Hc, Hrest. reflexivity.
Qed.

Lemma splitlines_one_line (line : str) :
  no_linebreak line → line ≠ [] → splitlines line = [line].
Proof.
  induction 1 as [|c line Hc Hline IH]; [done|]. intros _.
  rewrite splitlines_cons, Hc. destruct line as [|c' line]; [reflexivity|].
  by rewrite IH.
Qed.

Lemma splitlines_terminated_line (line : str) (c : N) :
  no_linebreak line → is_linebreak c = true → splitlines (line ++ [c]) = [line].
Proof.
  intros Hline Hc. induction Hline as [|x line Hx Hline IH]; simpl.
  - by rewrite Hc.
  - rewrite Hx. fold (splitlines (line ++ [c])). by rewrite IH.
Qed.

Lemma no_linebreak_open_ended (line : str) : no_linebreak line → line ≠ [] → open_ended line.
Proof.
  intros Hline Hne. destruct (pop_ok line Hne) as (init & c & -> & _).
  exists init, c. split; [done|]. apply Forall_app in Hline as [_ Hc].
  by apply Forall_cons_1 in Hc as [Hc _].
Qed.

Lemma boundaries_inside_lines_held (texts : list str) :
  ∀ seen held,
    open_ended seen → open_ended held →
    boundaries_inside_lines seen texts → boundaries_inside_lines held texts.
Proof.
  induction texts as [|text rest IH]; intros seen held Hseen Hheld; [done|].
  assert (∀ a, open_ended a → open_ended (a ++ text) → open_ended (held ++ text)) as Hopen.
  { intros a Ha Hat. destruct text as [|c text]; [by rewrite app_nil_r|].
    apply open_ended_app; [done|]. by apply open_ended_app in Hat. }
  destruct rest as [|text' rest].
  - simpl. intros _ Hnil. apply app_eq_nil in Hnil as [-> _].
    by destruct Hheld as ([|] & ? & ? & _).
  - intros [Hcur Hrest]. split; [exact (Hopen seen Hseen Hcur)|].
    exact (IH (seen ++ text) (held ++ text) Hcur (Hopen seen Hseen Hcur) Hrest).
Qed.

Lemma chunk_texts_nil (W : World) (d : dstate (zlib W)) (chunks : list bytes) :
  chunk_texts W d chunks = Ok [] → chunks = [].
Proof.
  destruct chunks as [|chunk rest]; [done|]. simpl.
  destruct (decompress (zlib W) d chunk) as [[d' raw]|e]; [|done].
  destruct (decode raw); [|done]. by destruct (chunk_texts W d' rest).
Qed.

(** One turn of the loop. *)
Lemma read_chunks_step (W : World) (d d' : dstate (zlib W)) (held text last : str)
    (chunk raw : bytes) (rest : list bytes) (lines : list str) :
  decompress (zlib W) d chunk = Ok (d', raw) →
  decode raw = Ok text →
  pop (splitlines (held ++ text)) = Ok (lines, last) →
  read_chunks W d held (chunk :: rest)
  = (Yield (omap (url_of_line W) lines) :: (read_chunks W d' last rest).1,
     (read_chunks W d' last rest).2).
Proof.
  intros Hd Hraw Hpop. cbn [read_chunks]. rewrite Hd. eff. rewrite Hraw. eff.
  rewrite Hpop. eff. by destruct (read_chunks W d' last rest).
Qed.

(** The loop on chunks cut inside lines: with the line held back, it
    emits the tokens of the lines of the text it has seen. *)
Lemma read_chunks_inside_lines (W : World) (chunks : list bytes) :
  ∀ d held texts,
    chunk_texts W d chunks = Ok texts →
    no_linebreak held →
    boundaries_inside_lines held texts →
    ∃ evs last,
      read_chunks W d held chunks = (evs, Ok last)
      ∧ concat (yields (evs, Ok last)) ++ omap (url_of_line W) [last]
        = omap (url_of_line W) (splitlines (held ++ concat texts)).
Proof.
  induction chunks as [|chunk rest IH]; intros d held texts Htexts Hheld Hinside.
  - injection Htexts as <-. exists [], held. split; [reflexivity|].
    simpl. rewrite app_nil_r. destruct held as [|c held]; [reflexivity|].
    by rewrite splitlines_one_line.
  - simpl in Htexts. cbn [read_chunks]. eff.
    destruct (decompress (zlib W) d chunk) as [[d' raw]|e]; [|done]. eff.
    destruct (decode raw) as [text|e]; [|done]. eff.
    destruct (chunk_texts W d' rest) as [texts'|e] eqn:Htexts'; [|done].
    injection Htexts as <-.
    destruct texts' as [|text' texts'].
    + apply chunk_texts_nil in Htexts' as ->. simpl in Hinside.
      destruct (pop_ok (splitlines (held ++ text))) as (lines & last & Hsplit & Hpop).
      { intros Hnil. by apply splitlines_nil in Hnil. }
      rewrite Hpop. eff. exists [Yield (omap (url_of_line W) lines)], last.
      split; [reflexivity|].
      simpl. rewrite !app_nil_r, Hsplit. by rewrite omap_app.
    + destruct Hinside as [Hcur Hrest].
      destruct (splitlines_open_ended _ (held ++ text) (le_n _) Hcur)
        as (lines & held' & Hsplit & Hopen & Hnb & Hgoes).
      rewrite Hsplit, pop_snoc. eff.
      destruct (IH d' held' (text' :: texts') Htexts' Hnb) as (evs & last & Hread & Htokens).
      { exact (boundaries_inside_lines_held _ (held ++ text) held' Hcur Hopen Hrest). }
      rewrite Hread. exists (Yield (omap (url_of_line W) lines) :: evs), last.
      split; [reflexivity|].
      rewrite (yields_yield _ _ _ (Ok last)).
      change (concat (text :: text' :: texts')) with (text ++ concat (text' :: texts')).
      rewrite app_assoc, Hgoes, omap_app, <- Htokens. simpl. by rewrite <- app_assoc.
Qed.

(** ** Chunk boundaries *)

(** X20. A chunk from which the decompressor returns nothing, while no line is
    held back, ends the decoder with [IndexError]: this is the first chunk
    of every stream read byte by byte. *)
Lemma empty_output_raises (W : World) (chunk : bytes) (rest : list bytes) (d : dstate (zlib W)) :
  decompress (zlib W) (decompressobj (zlib W)) chunk = Ok (d, []) →
  extract_from_chunks W (chunk :: rest) = ([], Raise IndexError).
Proof. intros Hd. unfold extract_from_chunks. simpl. rewrite Hd. reflexivity. Qed.


(** ** Publication on a concrete repository *)

(** One file is not empty and the comparison reports a change: the tree
    holds that file alone and [main] is moved to the new commit. *)
Example changed_blocklist_is_pushed :
  calls (Github.upload_blocklists (remote [tt]) (py "Google")
           [py "Google_urls.txt"; py "Google_ips.txt"] None)
  = [GitCreateTree [(py "Google_urls.txt.txt", py "bad.example")];
     GitCreateCommit (py "Update Google blocklists");
     GitCompare "main" (py "0b");
     GitRefEdit "heads/main" (py "0b")].
Proof. reflexivity. Qed.

(** The comparison reports no change: the commit object is created and
    compared, and [main] stays where it is. *)
Example unchanged_blocklist_is_not_pushed :
  Github.upload_blocklists (remote []) (py "Google") [py "Google_urls.txt"; py "Google_ips.txt"] None
  = ([Call (GitCreateTree [(py "Google_urls.txt.txt", py "bad.example")]);
      Call (GitCreateCommit (py "Update Google blocklists"));
      Call (GitCompare "main" (py "0b"));
      Log INFO "No changes found for %s blocklists" [AStr (py "Google")]],
     Ok tt).
Proof. reflexivity. Qed.

(** Every file is empty: nothing is sent, and a warning is logged. *)
Example empty_blocklists_send_nothing :
  Github.upload_blocklists (remote [tt]) (py "Google") [py "Google_ips.txt"; py "Google_asn.txt"] None
  = ([Log WARNING "%s blocklists are empty, won't update repository" [AStr (py "Google")]],
     Ok tt).
Proof. reflexivity. Qed.

(** A file name without underscore: the [IndexError] of line 34 is caught
    and logged. *)
Example bad_file_name_is_logged :
  Github.upload_blocklists (remote [tt]) (py "Google") [py "urls.txt"] None
  = ([Log WARNING "Failed to update repository with %s blocklists" [AStr (py "Google")];
      Log WARNING "%s" [ARepr IndexError]],
     Ok tt).
Proof. reflexivity. Qed.

(** X18. Where the boundaries do stay invisible: when every chunk decompresses
    and decodes, and no boundary between two chunks falls before the first
    character of the text or right after the end of a line, the decoder
    ends normally and its tokens are those of the lines of the whole text,
    whatever the chunks. *)
Theorem chunks_cut_inside_lines_are_invisible (W : World) (chunks : list bytes)
    (texts : list str) :
  chunk_texts W (decompressobj (zlib W)) chunks = Ok texts →
  boundaries_inside_lines [] texts →
  (extract_from_chunks W chunks).2 = Ok tt
  ∧ tokens (extract_from_chunks W chunks) = omap (url_of_line W) (splitlines (concat texts)).
Proof.
  intros Htexts Hinside.
  destruct (read_chunks_inside_lines W chunks _ [] texts Htexts (Forall_nil _) Hinside)
    as (evs & last & Hread & Htokens).
  unfold tokens, extract_from_chunks. rewrite yields_bind, Hread. cbn [fst snd mbind eff_bind bind].
  simpl in Htokens. rewrite <- Htokens.
  destruct (url_of_line W last) as [url|]; split; try reflexivity.
  - by rewrite concat_app.
  - by rewrite concat_app.
Qed.

Lemma chunks_cut_inside_lines_are_invisible_witness :
  (extract_from_chunks one_zone [take 22 gz_example; drop 22 gz_example]).2 = Ok tt
  ∧ tokens (extract_from_chunks one_zone [take 22 gz_example; drop 22 gz_example])
    = omap (url_of_line one_zone)
        (splitlines (concat [py "EXAMPLE"; py ".COM." ++ [0x09] ++ py "A" ++ [0x0a]
                                             ++ py "Foo.Test." ++ [0x09] ++ py "NS" ++ [0x0a]])).
Proof.
  apply (chunks_cut_inside_lines_are_invisible one_zone [take 22 gz_example; drop 22 gz_example]).
  - vm_compute. reflexivity.
  - split.
    + exists (py "EXAMPL"), 0x45. split; reflexivity.
    + vm_compute. discriminate.
Defined.

(** X19. A chunk whose text ends with the end of a line: the terminator is
    dropped with the line held back, and the text of the next chunk is
    read as the rest of that line. *)
Lemma line_end_at_boundary_joins_lines (W : World) (chunk1 chunk2 : bytes)
    (line text : str) (terminator : N) :
  chunk_texts W (decompressobj (zlib W)) [chunk1; chunk2] = Ok [line ++ [terminator]; text] →
  is_linebreak terminator = true →
  no_linebreak line →
  line ≠ [] →
  tokens (extract_from_chunks W [chunk1; chunk2])
  = omap (url_of_line W) (splitlines (line ++ text)).
Proof.
  intros Htexts Hterm Hline Hne. simpl in Htexts.
  destruct (decompress (zlib W) (decompressobj (zlib W)) chunk1) as [[d1 raw1]|e] eqn:Hd1; [|done].
  destruct (decode raw1) as [text1|e] eqn:Hraw1; [|done].
  destruct (decompress (zlib W) d1 chunk2) as [[d2 raw2]|e] eqn:Hd2; [|done].
  destruct (decode raw2) as [text2|e] eqn:Hraw2; [|done].
  injection Htexts as -> ->.
  destruct (read_chunks_inside_lines W [chunk2] d1 line [text]) as (evs & last & Hread & Htokens).
  { simpl. by rewrite Hd2, Hraw2. }
  { exact Hline. }
  { simpl. intros Hnil. by apply app_eq_nil in Hnil as [-> _]. }
  unfold tokens, extract_from_chunks. rewrite yields_bind.
  rewrite (read_chunks_step W _ d1 [] (line ++ [terminator]) line chunk1 raw1 [chunk2] [] Hd1 Hraw1).
  2:{ simpl. by rewrite (splitlines_terminated_line line terminator Hline Hterm). }
  rewrite Hread. cbn [fst snd].
  simpl in Htokens. rewrite app_nil_r in Htokens. rewrite <- Htokens.
  rewrite (yields_yield _ _ _ (Ok last)). simpl.
  destruct (url_of_line W last); by rewrite concat_app.
Qed.

(** * Further properties of the code *)

(** ** Traces *)

Lemma calls_bind {Y A B} (m : Eff Y A) (f : A → Eff Y B) :
  calls (m ≫= f) = calls m ++ match m.2 with Ok a => calls (f a) | Raise _ => [] end.
Proof.
  destruct m as [evs [a|e]]; eff; unfold calls; simpl.
  - destruct (f a) as [evs' r]. simpl. apply omap_app.
  - by rewrite app_nil_r.
Qed.

Lemma logs_bind {Y A B} (m : Eff Y A) (f : A → Eff Y B) :
  logs (m ≫= f) = logs m ++ match m.2 with Ok a => logs (f a) | Raise _ => [] end.
Proof.
  destruct m as [evs [a|e]]; eff; unfold logs; simpl.
  - destruct (f a) as [evs' r]. simpl. apply omap_app.
  - by rewrite app_nil_r.
Qed.

Lemma result_bind {Y A B} (m : Eff Y A) (f : A → Eff Y B) :
  (m ≫= f).2 = match m.2 with Ok a => (f a).2 | Raise e => Raise e end.
Proof. destruct m as [evs [a|e]]; eff; [by destruct (f a)|done]. Qed.

Lemma log_unless_calls {Y} (b : bool) (lvl : level) (msg : string) :
  calls (log_unless (Y:=Y) b lvl msg) = [] ∧ (log_unless (Y:=Y) b lvl msg).2 = Ok tt.
Proof. by destruct b. Qed.

(** ** Authentication and construction of the feed *)

Lemma authenticate_calls (W : World) (username password : str) :
  calls (_authenticate W username password) = [auth_request username password].
Proof.
  unfold _authenticate, auth_request. rewrite calls_bind. cbn [emit snd].
  rewrite calls_bind. cbn [lift snd].
  destruct (post_async W _ _ _) as [body|e]; [|reflexivity].
  destruct body as [| | | s | items | items]; try reflexivity.
  - rewrite calls_bind. destruct (log_unless_calls (Y:=Empty_set) (contains (py "accessToken") s)
                                    ERROR "Failed to authenticate ICANN user") as [-> ->].
    reflexivity.
  - rewrite calls_bind.
    destruct (log_unless_calls (Y:=Empty_set) (existsb (is_str (py "accessToken")) items)
                ERROR "Failed to authenticate ICANN user") as [-> ->].
    reflexivity.
  - rewrite calls_bind.
    destruct (log_unless_calls (Y:=Empty_set)
                (bool_decide (is_Some (dict_get (py "accessToken") items)))
                ERROR "Failed to authenticate ICANN user") as [-> ->].
    reflexivity.
Qed.

Lemma get_approved_endpoints_calls (W : World) (token : json) :
  calls (_get_approved_endpoints W token) = [links_request W token].
Proof.
  unfold _get_approved_endpoints, links_request. rewrite calls_bind. cbn [emit snd].
  rewrite calls_bind. cbn [lift snd].
  destruct (get_async W _ _) as [body|e]; [|reflexivity].
  by destruct body.
Qed.

Lemma init_selected (W : World) (args : parser_args) (update_time : Z) :
  "icann" ∈ sources args →
  __init__ W args update_time
  = (access_token ← init_authentication W;
     endpoints ← _get_approved_endpoints W access_token;
     named ← lift (comprehension zone_of endpoints);
     mret {| db_filenames := named.*1;
             jobs := if fetch args
                     then map (fun '(db_filename, endpoint) =>
                                 {| job_producer := get_icann_domains;
                                    job_update_time := update_time;
                                    job_db_filename := db_filename;
                                    job_endpoint := endpoint;
                                    job_access_token := access_token |}) named
                     else [] |}).
Proof. intros Hin. unfold __init__. by rewrite bool_decide_eq_true_2. Qed.

(** X1. The feed talks to ICANN exactly when the source [icann] is selected:
    otherwise it is constructed empty without any event; when selected,
    its first request is the authentication. *)
Theorem init_requests_iff_selected (W : World) (args : parser_args) (update_time : Z) :
  ("icann" ∉ sources args →
   __init__ W args update_time = ([], Ok {| db_filenames := []; jobs := [] |}))
  ∧ ("icann" ∈ sources args →
     ∃ later, calls (__init__ W args update_time) = init_auth_request W :: later).
Proof.
  split.
  - intros Hnot. unfold __init__. by rewrite bool_decide_eq_false_2.
  - intros Hin. rewrite init_selected by done. rewrite calls_bind.
    unfold init_authentication at 1. rewrite authenticate_calls. by eexists.
Qed.

(** X2. The listing is requested under whatever [_authenticate] returned, and
    these two requests are all the construction sends. *)
Theorem init_lists_with_returned_token (W : World) (args : parser_args) (update_time : Z)
    (token : json) :
  "icann" ∈ sources args →
  (init_authentication W).2 = Ok token →
  calls (__init__ W args update_time) = [init_auth_request W; links_request W token].
Proof.
  intros Hin Hauth. rewrite init_selected by done. rewrite calls_bind, Hauth.
  unfold init_authentication at 1. rewrite authenticate_calls.
  rewrite calls_bind, get_approved_endpoints_calls.
  destruct (_get_approved_endpoints W token).2 as [endpoints|e]; [|reflexivity].
  rewrite calls_bind. cbn [lift snd].
  by destruct (comprehension zone_of endpoints).
Qed.

Lemma init_lists_with_returned_token_witness :
  calls (__init__ one_zone fetch_icann 0)
  = [init_auth_request one_zone; links_request one_zone (JStr (py "tok"))].
Proof.
  apply (init_lists_with_returned_token one_zone fetch_icann 0%Z (JStr (py "tok")));
    [apply list_elem_of_here | reflexivity].
Defined.

(** X3. After a reply without [accessToken] the construction goes on: the
    listing is requested with the header [Authorization: Bearer ] and an
    empty token. *)
Theorem init_lists_with_blank_token (W : World) (args : parser_args) (update_time : Z)
    (items : list (str * json)) :
  "icann" ∈ sources args →
  auth_reply W (env_str W "ICANN_ACCOUNT_USERNAME") (env_str W "ICANN_ACCOUNT_PASSWORD")
    = Ok (JObj items) →
  dict_get (py "accessToken") items = None →
  calls (__init__ W args update_time) = [init_auth_request W; links_request W (JStr [])]
  ∧ authorization (links_request W (JStr [])) = Some (py "Bearer ").
Proof.
  intros Hin Hreply Hnone. split; [|reflexivity].
  rewrite init_selected by done. rewrite calls_bind.
  assert ((init_authentication W).2 = Ok (JStr [])) as Hauth.
  { unfold init_authentication, _authenticate. unfold auth_reply in Hreply.
    rewrite Hreply. eff. by rewrite Hnone. }
  rewrite Hauth. unfold init_authentication at 1. rewrite authenticate_calls.
  rewrite calls_bind, get_approved_endpoints_calls.
  destruct (_get_approved_endpoints W (JStr [])).2 as [endpoints|e]; [|reflexivity].
  rewrite calls_bind. cbn [lift snd].
  by destruct (comprehension zone_of endpoints).
Qed.

Lemma init_lists_with_blank_token_witness :
  calls (__init__ (world (JObj []) (JArr []) (Ok None)) fetch_icann 0)
  = [init_auth_request (world (JObj []) (JArr []) (Ok None));
     links_request (world (JObj []) (JArr []) (Ok None)) (JStr [])]
  ∧ authorization (links_request (world (JObj []) (JArr []) (Ok None)) (JStr []))
    = Some (py "Bearer ").
Proof.
  apply (init_lists_with_blank_token (world (JObj []) (JArr []) (Ok None)) fetch_icann 0%Z []);
    [apply list_elem_of_here | reflexivity | reflexivity].
Defined.

(** X4. An exception of the authentication ends the construction: it is
    raised to the caller and the listing is never requested. *)
Theorem init_authentication_failure_propagates (W : World) (args : parser_args)
    (update_time : Z) (error : exn) :
  "icann" ∈ sources args →
  (init_authentication W).2 = Raise error →
  (__init__ W args update_time).2 = Raise error
  ∧ calls (__init__ W args update_time) = [init_auth_request W].
Proof.
  intros Hin Hauth. rewrite init_selected by done.
  rewrite result_bind, calls_bind, Hauth. split; [reflexivity|].
  unfold init_authentication. by rewrite authenticate_calls.
Qed.

Lemma init_authentication_failure_propagates_witness :
  (__init__ (world (JArr []) (JArr []) (Ok None)) fetch_icann 0).2 = Raise AttributeError
  ∧ calls (__init__ (world (JArr []) (JArr []) (Ok None)) fetch_icann 0)
    = [init_auth_request (world (JArr []) (JArr []) (Ok None))].
Proof.
  apply (init_authentication_failure_propagates (world (JArr []) (JArr []) (Ok None))
           fetch_icann 0%Z AttributeError);
    [apply list_elem_of_here | reflexivity].
Defined.

(** X5. A reply that parses to something else than an object makes
    [_authenticate] raise: [AttributeError] for a list or a string,
    [TypeError] for a number, a boolean or null. *)
Theorem authenticate_rejects_non_object (W : World) (username password : str) (body : json) :
  auth_reply W username password = Ok body →
  is_object body = false →
  (_authenticate W username password).2
  = Raise (match body with JArr _ | JStr _ => AttributeError | _ => TypeError end).
Proof.
  unfold auth_reply, _authenticate. intros Hreply Hobj.
  rewrite result_bind. cbn [emit snd]. rewrite result_bind, Hreply. cbn [lift snd].
  destruct body as [| | | s | items | items]; try reflexivity; try discriminate Hobj.
  - rewrite result_bind. by destruct (contains _ s).
  - rewrite result_bind. by destruct (existsb _ items).
Qed.

Lemma authenticate_rejects_non_object_witness :
  (_authenticate (world (JStr (py "accessToken")) (JArr []) (Ok None)) (py "user") (py "secret")).2
  = Raise AttributeError.
Proof.
  apply (authenticate_rejects_non_object (world (JStr (py "accessToken")) (JArr []) (Ok None))
           (py "user") (py "secret") (JStr (py "accessToken")));
    reflexivity.
Defined.

(** X6. On an object, [_authenticate] returns the value of [accessToken]
    when the field is there, whatever its type, and logs nothing; it logs
    exactly when the field is missing. *)
Theorem authenticate_returns_token_field (W : World) (username password : str)
    (items : list (str * json)) :
  auth_reply W username password = Ok (JObj items) →
  (∀ token, dict_get (py "accessToken") items = Some token →
            (_authenticate W username password).2 = Ok token)
  ∧ (logs (_authenticate W username password) = []
     ↔ is_Some (dict_get (py "accessToken") items)).
Proof.
  unfold auth_reply, _authenticate. intros Hreply. rewrite Hreply. eff.
  destruct (dict_get (py "accessToken") items) as [token|]; simpl.
  - split; [by intros ? [= ->]|]. split; [by eexists|done].
  - split; [done|]. split; [done|]. by intros [? ?].
Qed.

Lemma authenticate_returns_token_field_witness :
  (∀ token, dict_get (py "accessToken") [(py "accessToken", JStr (py "tok"))] = Some token →
            (_authenticate one_zone (py "user") (py "secret")).2 = Ok token)
  ∧ (logs (_authenticate one_zone (py "user") (py "secret")) = []
     ↔ is_Some (dict_get (py "accessToken") [(py "accessToken", JStr (py "tok"))])).
Proof.
  apply (authenticate_returns_token_field one_zone (py "user") (py "secret")
           [(py "accessToken", JStr (py "tok"))]).
  reflexivity.
Defined.

(** ** Table names *)


Lemma comprehension_raise {A B} (f : A → Result B) (xs : list A) (x : A) :
  x ∈ xs → is_Ok (f x) = false →
  ∃ x' error, x' ∈ xs ∧ f x' = Raise error ∧ comprehension f xs = Raise error.
Proof.
  intros Hin Hx. induction xs as [|y xs IH]; [by apply elem_of_nil in Hin|].
  simpl. destruct (f y) as [b|e] eqn:Hy.
  - apply elem_of_cons in Hin as [->|Hin]; [by rewrite Hy in Hx|].
    destruct (IH Hin) as (x' & error & Hx' & Hfx' & ->).
    exists x', error. split; [by apply list_elem_of_further|done].
  - exists y, e. split; [apply list_elem_of_here|done].
Qed.

Lemma split_on_one (sep : N) (s : str) : sep ∉ s → split_on sep s = [s].
Proof.
  induction s as [|c s IH]; [done|]. intros Hnot.
  apply not_elem_of_cons in Hnot as [Hc Hs]. simpl.
  destruct (N.eqb_spec c sep) as [->|_]; [done|]. by rewrite IH.
Qed.

Lemma split_on_not_nil (sep : N) (s : str) : split_on sep s ≠ [].
Proof.
  destruct s as [|c s]; [done|]. simpl. destruct (c =? sep); [done|].
  by destruct (split_on sep s).
Qed.

Lemma split_on_last (sep : N) (a b : str) :
  sep ∉ b → split_on sep (a ++ sep :: b) = split_on sep a ++ [b].
Proof.
  intros Hb. induction a as [|c a IH]; simpl.
  - rewrite N.eqb_refl. by rewrite split_on_one.
  - destruct (c =? sep); rewrite IH; [done|].
    pose proof (split_on_not_nil sep a). by destruct (split_on sep a).
Qed.

Lemma last_component (url file : str) :
  0x2f ∉ file →
  (url = file ∨ ∃ dir, url = dir ++ py "/" ++ file) →
  List.last (split_on 0x2f url) [] = file.
Proof.
  intros Hfile [->|[dir ->]].
  - by rewrite split_on_one.
  - change (dir ++ py "/" ++ file) with (dir ++ 0x2f :: file).
    rewrite split_on_last by done. apply last_last.
Qed.

(** X7. The table of an endpoint is named after the last but one of the
    parts, between dots, of the last component of its path:
    [.../com.zone] gives [icann_com], [.../net.txt.gz] gives [icann_txt]. *)
Theorem zone_of_last_but_one_part (url stem zone ext : str) :
  (url = stem ++ zone ++ py "." ++ ext
   ∨ ∃ dir, url = dir ++ py "/" ++ stem ++ zone ++ py "." ++ ext) →
  (stem = [] ∨ ∃ before, stem = before ++ py ".") →
  0x2f ∉ stem ++ zone ++ py "." ++ ext →
  0x2e ∉ zone →
  0x2e ∉ ext →
  zone_of (JStr url) = Ok (py "icann_" ++ zone, url).
Proof.
  intros Hurl Hstem Hslash Hzone Hext. unfold zone_of.
  rewrite (last_component url (stem ++ zone ++ py "." ++ ext) Hslash Hurl).
  destruct Hstem as [->|[before ->]].
  - change ([] ++ zone ++ py "." ++ ext) with (zone ++ 0x2e :: ext).
    rewrite split_on_last, split_on_one by done. reflexivity.
  - replace ((before ++ py ".") ++ zone ++ py "." ++ ext)
      with ((before ++ (0x2e :: zone)) ++ (0x2e :: ext))
      by (by rewrite <- !app_assoc).
    rewrite !split_on_last by done. rewrite !rev_app_distr. reflexivity.
Qed.

Lemma zone_of_last_but_one_part_witness :
  zone_of (JStr (py "https://czds-api.icann.org/czds/downloads" ++ py "/" ++ py "net."
                   ++ py "txt" ++ py "." ++ py "gz"))
  = Ok (py "icann_" ++ py "txt",
        py "https://czds-api.icann.org/czds/downloads" ++ py "/" ++ py "net."
          ++ py "txt" ++ py "." ++ py "gz").
Proof.
  apply (zone_of_last_but_one_part _ (py "net.") (py "txt") (py "gz")).
  - right. by exists (py "https://czds-api.icann.org/czds/downloads").
  - right. by exists (py "net").
  - apply (bool_decide_unpack _). vm_compute. reflexivity.
  - apply (bool_decide_unpack _). vm_compute. reflexivity.
  - apply (bool_decide_unpack _). vm_compute. reflexivity.
Defined.

(** X8. An endpoint that is not a string, or whose last path component has
    no dot, makes the construction of the feed raise, after both requests:
    one such endpoint leaves the feed without any job. *)
Theorem init_fails_on_unnamed_endpoint (W : World) (args : parser_args) (update_time : Z)
    (token : json) (endpoints : list json) (endpoint : json) :
  "icann" ∈ sources args →
  (init_authentication W).2 = Ok token →
  (_get_approved_endpoints W token).2 = Ok endpoints →
  endpoint ∈ endpoints →
  match endpoint with
  | JStr url => ∃ file, (0x2f ∉ file) ∧ (0x2e ∉ file)
                        ∧ (url = file ∨ ∃ dir, url = dir ++ py "/" ++ file)
  | _ => True
  end →
  ∃ error, (__init__ W args update_time).2 = Raise error
           ∧ (error = IndexError ∨ error = AttributeError).
Proof.
  intros Hin Hauth Hlist Hendpoint Hbad.
  assert (is_Ok (zone_of endpoint) = false) as Hzone.
  { destruct endpoint as [| | | url | |]; try reflexivity.
    destruct Hbad as (file & Hslash & Hdot & Hurl). unfold zone_of.
    rewrite (last_component url file Hslash Hurl), split_on_one by done. reflexivity. }
  destruct (comprehension_raise zone_of endpoints endpoint Hendpoint Hzone)
    as (bad & error & _ & Hbadzone & Hcomp).
  exists error. split.
  - rewrite init_selected by done. rewrite result_bind, Hauth, result_bind, Hlist.
    rewrite result_bind. cbn [lift snd]. by rewrite Hcomp.
  - unfold zone_of in Hbadzone. destruct bad; try (injection Hbadzone as <-; by right).
    destruct (rev _) as [|? [|]]; try discriminate Hbadzone; injection Hbadzone as <-; by left.
Qed.

Lemma init_fails_on_unnamed_endpoint_witness :
  ∃ error,
    (__init__ (world token_reply (JArr [com_zone; JStr (py "downloads/README")]) (Ok None))
       fetch_icann 0).2 = Raise error
    ∧ (error = IndexError ∨ error = AttributeError).
Proof.
  apply (init_fails_on_unnamed_endpoint
           (world token_reply (JArr [com_zone; JStr (py "downloads/README")]) (Ok None))
           fetch_icann 0%Z (JStr (py "tok")) [com_zone; JStr (py "downloads/README")]
           (JStr (py "downloads/README"))).
  - apply list_elem_of_here.
  - reflexivity.
  - reflexivity.
  - apply list_elem_of_further, list_elem_of_here.
  - exists (py "README"). split; [|split].
    + apply (bool_decide_unpack _). vm_compute. reflexivity.
    + apply (bool_decide_unpack _). vm_compute. reflexivity.
    + right. by exists (py "downloads").
Defined.



(** ** The producer *)

Lemma relay_ends_normally (W : World) (endpoint : str) (inner : list (event (list str)))
    (ending : Result unit) :
  Forall is_yield inner →
  (relay W (on_failure endpoint) inner ending).2 = Ok tt
  ∧ (logs (relay W (on_failure endpoint) inner ending) = []
     ∨ logs (relay W (on_failure endpoint) inner ending)
       = [(WARNING, "Failed to retrieve ICANN list %s | %s")]).
Proof.
  induction 1 as [|ev inner Hev _ IH]; simpl.
  - destruct ending as [[]|e]; split; auto.
  - destruct ev as [batch| |]; simpl in Hev; try contradiction.
    destruct (generate_hostname_expressions W batch) as [hostnames|e]; [|split; auto].
    eff. destruct (relay W _ inner ending) as [evs r].
    by rewrite (logs_yield _ _ _ r).
Qed.

(** X10. Whatever the request, the stream and the helper do, the producer
    ends normally: no exception leaves [_get_icann_domains], and it logs
    at most one warning. *)
Theorem get_icann_domains_never_raises (W : World) (endpoint : str) (token : json) :
  (_get_icann_domains W endpoint token).2 = Ok tt
  ∧ (logs (_get_icann_domains W endpoint token) = []
     ∨ logs (_get_icann_domains W endpoint token)
       = [(WARNING, "Failed to retrieve ICANN list %s | %s")]).
Proof.
  unfold _get_icann_domains.
  destruct (extract_zonefile_urls_trace W endpoint (icann_headers W token)) as (evs & Hevs & Hy).
  destruct (extract_zonefile_urls W endpoint (icann_headers W token)) as [ievs ending].
  simpl in Hevs. subst ievs. cbn [fst snd relay]. eff.
  destruct (relay_ends_normally W endpoint evs ending Hy) as [Hres Hlogs].
  destruct (relay W (on_failure endpoint) evs ending) as [oevs r].
  by rewrite (logs_call _ _ _ r).
Qed.

Lemma relay_success (W : World) (endpoint : str) (inner : list (event (list str))) :
  Forall is_yield inner →
  Forall (fun batch => is_Ok (generate_hostname_expressions W batch) = true)
    (yields (inner, Ok tt)) →
  Forall2 (relayed W) (yields (inner, Ok tt)) (yields (relay W (on_failure endpoint) inner (Ok tt)))
  ∧ logs (relay W (on_failure endpoint) inner (Ok tt)) = [].
Proof.
  induction 1 as [|ev inner Hev _ IH]; simpl; [by split; [constructor|]|].
  destruct ev as [batch| |]; simpl in Hev; try contradiction.
  rewrite (yields_yield _ _ _ (Ok tt)). intros [Hb Hrest]%Forall_cons_1.
  destruct (generate_hostname_expressions W batch) as [hostnames|e] eqn:Hghe; [|done].
  destruct (IH Hrest) as [Hrel Hlogs]. eff.
  destruct (relay W _ inner (Ok tt)) as [evs r].
  rewrite (yields_yield _ _ _ r), (logs_yield _ _ _ r). split; [|done]. by constructor.
Qed.

(** X11. When the decoder ends normally and the helper accepts every batch,
    the producer yields one batch of hostname expressions per batch of the
    decoder, in order, and logs nothing. *)
Theorem get_icann_domains_relays_batches (W : World) (endpoint : str) (token : json) :
  (extract_zonefile_urls W endpoint (icann_headers W token)).2 = Ok tt →
  Forall (fun batch => is_Ok (generate_hostname_expressions W batch) = true)
    (yields (extract_zonefile_urls W endpoint (icann_headers W token))) →
  Forall2 (relayed W)
    (yields (extract_zonefile_urls W endpoint (icann_headers W token)))
    (yields (_get_icann_domains W endpoint token))
  ∧ logs (_get_icann_domains W endpoint token) = [].
Proof.
  unfold _get_icann_domains.
  destruct (extract_zonefile_urls_trace W endpoint (icann_headers W token)) as (evs & Hevs & Hy).
  destruct (extract_zonefile_urls W endpoint (icann_headers W token)) as [ievs ending].
  simpl in Hevs. subst ievs. cbn [fst snd relay]. intros -> Hok. eff.
  rewrite (yields_call _ _ _ (Ok tt)) in Hok |- *.
  destruct (relay_success W endpoint evs Hy Hok) as [Hrel Hlogs].
  destruct (relay W (on_failure endpoint) evs (Ok tt)) as [oevs r].
  by rewrite (yields_call _ _ _ r), (logs_call _ _ _ r).
Qed.

Lemma get_icann_domains_relays_batches_witness :
  Forall2 (relayed (world token_reply (JArr [com_zone]) (Ok (Some gz_example))))
    (yields (extract_zonefile_urls (world token_reply (JArr [com_zone]) (Ok (Some gz_example)))
               (job_endpoint com_job)
               (icann_headers (world token_reply (JArr [com_zone]) (Ok (Some gz_example)))
                  (JStr (py "tok")))))
    (yields (_get_icann_domains (world token_reply (JArr [com_zone]) (Ok (Some gz_example)))
               (job_endpoint com_job) (JStr (py "tok"))))
  ∧ logs (_get_icann_domains (world token_reply (JArr [com_zone]) (Ok (Some gz_example)))
            (job_endpoint com_job) (JStr (py "tok"))) = [].
Proof.
  apply (get_icann_domains_relays_batches
           (world token_reply (JArr [com_zone]) (Ok (Some gz_example)))
           (job_endpoint com_job) (JStr (py "tok"))).
  - vm_compute. reflexivity.
  - vm_compute. repeat constructor.
Defined.

(** ** The loop of the decoder *)

Lemma read_chunks_count (W : World) (chunks : list bytes) :
  ∀ d held,
    (length (yields (read_chunks W d held chunks)) ≤ length chunks)%nat
    ∧ (is_Ok (read_chunks W d held chunks).2 = true →
       length (yields (read_chunks W d held chunks)) = length chunks).
Proof.
  induction chunks as [|chunk rest IH]; intros d held; [by split|].
  cbn [read_chunks]. eff.
  destruct (decompress (zlib W) d chunk) as [[d' raw]|e]; eff; [|split; [simpl; lia|done]].
  destruct (decode raw) as [text|e]; eff; [|split; [simpl; lia|done]].
  destruct (pop (splitlines (held ++ text))) as [[lines last]|e]; eff;
    [|split; [simpl; lia|done]].
  specialize (IH d' last). destruct (read_chunks W d' last rest) as [evs r].
  rewrite (yields_yield _ _ _ r). simpl in *. destruct IH as [Hle Heq].
  split; [lia|]. intros Hok. by rewrite Heq.
Qed.

(** X12. The decoder yields at most one batch per chunk and one more at the
    end; when it ends normally it has yielded one batch for every chunk,
    the empty ones included. *)
Theorem decoder_yields_one_batch_per_chunk (W : World) (chunks : list bytes) :
  (length (yields (extract_from_chunks W chunks)) ≤ length chunks + 1)%nat
  ∧ ((extract_from_chunks W chunks).2 = Ok tt →
     (length chunks ≤ length (yields (extract_from_chunks W chunks)))%nat).
Proof.
  unfold extract_from_chunks. rewrite yields_bind, result_bind, length_app.
  destruct (read_chunks_count W chunks (decompressobj (zlib W)) []) as [Hle Heq].
  destruct (read_chunks W _ [] chunks) as [evs [last|e]]; cbn [snd] in *.
  - rewrite Heq by done. split; [|lia]. destruct (url_of_line W last); simpl; lia.
  - split; [simpl; lia|done].
Qed.

Lemma read_chunks_app (W : World) (chunks1 chunks2 : list bytes) :
  ∀ d held,
    yields (read_chunks W d held chunks1) `prefix_of` yields (read_chunks W d held (chunks1 ++ chunks2)).
Proof.
  induction chunks1 as [|chunk rest IH]; intros d held; [apply prefix_nil|].
  cbn [read_chunks app]. eff.
  destruct (decompress (zlib W) d chunk) as [[d' raw]|e]; eff; [|done].
  destruct (decode raw) as [text|e]; eff; [|done].
  destruct (pop (splitlines (held ++ text))) as [[lines last]|e]; eff; [|done].
  specialize (IH d' last).
  destruct (read_chunks W d' last rest) as [evs r].
  destruct (read_chunks W d' last (rest ++ chunks2)) as [evs' r'].
  rewrite (yields_yield _ _ _ r), (yields_yield _ _ _ r'). by apply prefix_cons.
Qed.

(** X13. The batches yielded while the first chunks are read do not depend on
    the chunks that follow: they are the first batches of the run on any
    longer sequence of chunks. *)
Theorem decoder_batches_are_final (W : World) (chunks later : list bytes) :
  yields (read_chunks W (decompressobj (zlib W)) [] chunks)
    `prefix_of` yields (extract_from_chunks W (chunks ++ later)).
Proof.
  unfold extract_from_chunks. rewrite yields_bind.
  etrans; [apply read_chunks_app|]. by apply prefix_app_r.
Qed.

(** ** Characters cut by a chunk boundary *)

Lemma continuation_lead (b : N) : lead_byte b → continuation b = false.
Proof.
  unfold lead_byte, continuation. intros Hb.
  destruct (N.ltb_spec b 0xc0); [lia|]. by rewrite andb_false_r.
Qed.

Lemma utf8_cut (n : nat) :
  ∀ bs b, (length bs ≤ n)%nat → lead_byte b → utf8 (bs ++ [b]) = Raise UnicodeDecodeError.
Proof.
  induction n as [|n IH]; intros bs b Hlen Hb.
  all: pose proof (continuation_lead b Hb) as Hc.
  all: assert (utf8 [b] = Raise UnicodeDecodeError) as Hbase
      by (unfold lead_byte in Hb; cbn [utf8];
          destruct (N.ltb_spec b 0x80); [lia|]; by repeat case_match).
  { destruct bs; [exact Hbase|simpl in Hlen; lia]. }
  destruct bs as [|x bs]; [exact Hbase|]. simpl in Hlen.
  change ((x :: bs) ++ [b]) with (x :: (bs ++ [b])). cbn [utf8].
  destruct (x <? 0x80); [by rewrite (IH _ b) by (lia || exact Hb)|].
  destruct (x <? 0xc2); [done|].
  destruct (x <? 0xe0).
  { destruct bs as [|b1 bs]; cbn [app]; [by rewrite Hc|].
    destruct (continuation b1); [|done]. simpl in Hlen. by rewrite (IH _ b) by (lia || exact Hb). }
  destruct (x <? 0xf0).
  { destruct bs as [|b1 [|b2 bs]]; cbn [app]; [done| |].
    - by rewrite Hc, andb_false_r.
    - case_match; [|done]. simpl in Hlen. by rewrite (IH _ b) by (lia || exact Hb). }
  destruct (x <? 0xf5); [|done].
  destruct bs as [|b1 [|b2 [|b3 bs]]]; cbn [app]; [done|done| |].
  - by rewrite Hc, !andb_false_r.
  - case_match; [|done]. simpl in Hlen. by rewrite (IH _ b) by (lia || exact Hb).
Qed.

(** X14. A chunk whose decompressed bytes end with the first byte of a
    multi-byte character, the rest of it being in the next chunk, stops
    the loop with [UnicodeDecodeError]: each chunk is decoded on its own. *)
Theorem character_cut_by_boundary_raises (W : World) (d d' : dstate (zlib W)) (held : str)
    (chunk : bytes) (rest : list bytes) (raw : bytes) (b : byte) :
  decompress (zlib W) d chunk = Ok (d', raw ++ [b]) →
  lead_byte (Byte.to_N b) →
  read_chunks W d held (chunk :: rest) = ([], Raise UnicodeDecodeError).
Proof.
  intros Hd Hb. cbn [read_chunks]. rewrite Hd. eff.
  unfold decode. rewrite map_app. cbn [map].
  by rewrite (utf8_cut _ _ _ (le_n _) Hb).
Qed.

Lemma character_cut_by_boundary_raises_witness :
  read_chunks one_zone (decompressobj (zlib one_zone)) [] [take 17 gz_accent; drop 17 gz_accent]
  = ([], Raise UnicodeDecodeError).
Proof.
  eapply (character_cut_by_boundary_raises one_zone (decompressobj (zlib one_zone)) _ []
            (take 17 gz_accent) [drop 17 gz_accent] [x61] xc3).
  - vm_compute. reflexivity.
  - unfold lead_byte. vm_compute. split; discriminate.
Defined.

(** ** The form of the hostnames *)

Lemma isspace_range (c : N) : isspace c = true → c ≤ 0x20 ∨ 0x85 ≤ c.
Proof.
  unfold isspace. intros [Hin|Hrange]%orb_prop.
  - apply bool_decide_eq_true in Hin.
    repeat (apply elem_of_cons in Hin as [->|Hin]); try lia. by apply elem_of_nil in Hin.
  - apply andb_prop in Hrange as [Hlo%N.leb_le _]. lia.
Qed.

Lemma ascii_lower_form (c : N) :
  c < 0x80 → isspace c = false →
  ascii_lower c < 0x80 ∧ isspace (ascii_lower c) = false
  ∧ ¬ (0x41 ≤ ascii_lower c ≤ 0x5a).
Proof.
  intros Hc Hsp. unfold ascii_lower.
  destruct (N.leb_spec 0x41 c), (N.leb_spec c 0x5a); simpl; try (split; [lia|split; [done|lia]]).
  split; [lia|]. split; [|lia].
  destruct (isspace (c + 0x20)) eqn:Hs; [|done]. apply isspace_range in Hs. lia.
Qed.

Lemma lower_ascii (ul : str → N → str → str) (s : str) :
  ascii_text s → ∀ before, lower_from ul before s = map ascii_lower s.
Proof.
  induction 1 as [|c s Hc _ IH]; intros before; [reflexivity|].
  simpl. apply N.ltb_lt in Hc. rewrite Hc. simpl. by rewrite IH.
Qed.

(** X15. On a line of ASCII text the emitted hostname is in normal form: not
    empty, ASCII, without space, without capital letter and without
    trailing dot. *)
Theorem ascii_line_gives_normal_hostname (W : World) (line url : str) :
  ascii_text line →
  url_of_line W line = Some url →
  hostname_form url ∧ ascii_text url.
Proof.
  intros Hline Hurl. pose proof (url_of_line_spec W line) as Hspec. rewrite Hurl in Hspec.
  destruct Hspec as (Hne & token & Hfirst & [[k Hk] Hdot]).
  destruct Hfirst as (spaces & rest & -> & _ & _ & Htoken & _).
  apply Forall_app in Hline as [_ [Hascii _]%Forall_app].
  unfold lower in Hk. rewrite lower_ascii in Hk by done.
  assert (Forall (fun c => c < 0x80 ∧ isspace c = false ∧ ¬ (0x41 ≤ c ≤ 0x5a))
            (map ascii_lower token)) as Hform.
  { apply Forall_fmap, Forall_forall. intros c Hin. simpl.
    apply ascii_lower_form.
    - by eapply Forall_forall in Hascii.
    - by eapply (proj1 (Forall_forall _ _) Htoken). }
  rewrite Hk in Hform. apply Forall_app in Hform as [Hform _].
  split; [split; [done|split; [|done]]|].
  - revert Hform. apply List.Forall_impl. by intros c (_ & ? & ?).
  - revert Hform. apply List.Forall_impl. by intros c (? & _).
Qed.

Lemma ascii_line_gives_normal_hostname_witness :
  hostname_form (py "example.com") ∧ ascii_text (py "example.com").
Proof.
  apply (ascii_line_gives_normal_hostname one_zone two_dots_line (py "example.com")).
  - repeat constructor.
  - reflexivity.
Defined.

(** ** The chunks read from the temporary file *)

Lemma pieces_from_sizes {A} (n : N) (l : list A) :
  ∀ room cur,
    n ≠ 0 → N.of_nat (length cur) + room = n →
    Forall (fun chunk => chunk ≠ [] ∧ N.of_nat (length chunk) ≤ n) (pieces_from n room cur l).
Proof.
  induction l as [|x l IH]; intros room cur Hn Hroom; simpl.
  - destruct cur as [|y cur]; constructor; [|constructor].
    split; [|rewrite length_rev; lia].
    intros Hnil. apply (f_equal length) in Hnil. rewrite length_rev in Hnil. done.
  - destruct (N.eqb_spec room 0) as [->|Hr].
    + constructor.
      * split; [|rewrite length_rev; lia].
        intros Hnil. apply (f_equal length) in Hnil. rewrite length_rev in Hnil.
        rewrite Hnil in Hroom. simpl in Hroom. lia.
      * apply IH; [done|]. simpl. lia.
    + apply IH; [done|]. simpl length. lia.
Qed.

Lemma pieces_one {A} (n : N) (l : list A) :
  l ≠ [] → N.of_nat (length l) ≤ n → pieces n l = [l].
Proof.
  intros Hl Hlen. unfold pieces. destruct (N.eqb_spec n 0) as [->|_].
  { destruct l; [done|]. simpl in Hlen. lia. }
  enough (∀ room cur, N.of_nat (length l) ≤ room → pieces_from n room cur l = [rev cur ++ l])
    as H by by rewrite H.
  clear Hlen. induction l as [|x l IH]; [done|]. intros room cur Hroom. simpl.
  destruct (N.eqb_spec room 0) as [->|_]; [simpl in Hroom; lia|].
  destruct l as [|y l].
  - simpl. by destruct cur.
  - rewrite IH; [|done|simpl in *; lia]. simpl. by rewrite <- app_assoc.
Qed.

(** X16. The decoder is fed the temporary file in consecutive chunks: joined
    they are the file, none is empty and none is longer than 1024**2
    bytes; a file of at most that size is a single chunk. *)
Theorem stream_is_read_in_chunks (W : World) (endpoint : str) (h : headers) (content : bytes) :
  get_async_stream W endpoint h = Ok (Some content) →
  ∃ chunks,
    extract_zonefile_urls W endpoint h
    = (Call (HttpGetStream endpoint h) :: (extract_from_chunks W chunks).1,
       (extract_from_chunks W chunks).2)
    ∧ concat chunks = content
    ∧ Forall (fun chunk => chunk ≠ [] ∧ N.of_nat (length chunk) ≤ 1024 ^ 2) chunks
    ∧ (content ≠ [] → N.of_nat (length content) ≤ 1024 ^ 2 → chunks = [content]).
Proof.
  intros Hstream. exists (pieces (1024 ^ 2) content). split; [|split; [|split]].
  - unfold extract_zonefile_urls. rewrite Hstream. eff.
    by destruct (extract_from_chunks W (pieces (1024 ^ 2) content)).
  - by apply pieces_concat.
  - unfold pieces. destruct (N.eqb_spec (1024 ^ 2) 0); [done|].
    apply pieces_from_sizes; [done|]. simpl. lia.
  - apply pieces_one.
Qed.

Lemma stream_is_read_in_chunks_witness :
  ∃ chunks,
    extract_zonefile_urls (world token_reply (JArr [com_zone]) (Ok (Some gz_example)))
      (job_endpoint com_job) []
    = (Call (HttpGetStream (job_endpoint com_job) [])
         :: (extract_from_chunks (world token_reply (JArr [com_zone]) (Ok (Some gz_example))) chunks).1,
       (extract_from_chunks (world token_reply (JArr [com_zone]) (Ok (Some gz_example))) chunks).2)
    ∧ concat chunks = gz_example
    ∧ Forall (fun chunk => chunk ≠ [] ∧ N.of_nat (length chunk) ≤ 1024 ^ 2) chunks
    ∧ (gz_example ≠ [] → N.of_nat (length gz_example) ≤ 1024 ^ 2 → chunks = [gz_example]).
Proof.
  apply (stream_is_read_in_chunks (world token_reply (JArr [com_zone]) (Ok (Some gz_example)))
           (job_endpoint com_job) [] gz_example).
  reflexivity.
Defined.

Lemma line_end_at_boundary_joins_lines_witness :
  tokens (extract_from_chunks one_zone [take 30 gz_example; drop 30 gz_example])
  = omap (url_of_line one_zone)
      (splitlines ((py "EXAMPLE.COM." ++ [0x09] ++ py "A")
                     ++ (py "Foo.Test." ++ [0x09] ++ py "NS" ++ [0x0a]))).
Proof.
  apply (line_end_at_boundary_joins_lines one_zone (take 30 gz_example) (drop 30 gz_example)
           (py "EXAMPLE.COM." ++ [0x09] ++ py "A") (py "Foo.Test." ++ [0x09] ++ py "NS" ++ [0x0a])
           0x0a).
  - vm_compute. reflexivity.
  - reflexivity.
  - repeat constructor.
  - vm_compute. discriminate.
Defined.

Lemma empty_output_raises_witness :
  extract_from_chunks one_zone (take 1 gz_example :: pieces 1 (drop 1 gz_example))
  = ([], Raise IndexError).
Proof.
  eapply (empty_output_raises one_zone (take 1 gz_example) (pieces 1 (drop 1 gz_example))).
  vm_compute. reflexivity.
Defined.

(** ** The order and the report of a publication *)

Section Outcome.
Import Github.
Context (W : Github.World).

Ltac step_body :=
  match goal with
  | |- context [match ?x with _ => _ end] =>
      lazymatch x with
      | context [match _ with _ => _ end] => fail
      | _ => destruct x eqn:?
      end
  end; eff.

Ltac run_body :=
  unfold upload_blocklists, try_except, upload_body; eff; repeat step_body.





(** X24. When the environment file gives no access token or no repository
    name, nothing is sent and the failure is logged. *)
Theorem missing_credentials_send_nothing (vendor : str) (blocklist_filenames : list str)
    (suffix : option str) :
  no_value W "GITHUB_ACCESS_TOKEN" ∨ no_value W "BLOCKLIST_REPOSITORY_NAME" →
  calls (upload_blocklists W vendor blocklist_filenames suffix) = []
  ∧ logs (upload_blocklists W vendor blocklist_filenames suffix) = failure_logs.
Proof.
  unfold no_value. intros Hmissing. run_body.
  all: try (split; reflexivity).
  all: unfold subscript in *.
  all: repeat match goal with
         | H : match dict_get ?k ?d with _ => _ end = _ |- _ =>
             destruct (dict_get k d) as [[?|]|] eqn:?; try discriminate H;
             injection H as ?; try discriminate
         end.
  all: by destruct Hmissing.
Qed.

(** X25. A file name without underscore ends the publication before anything
    is read or sent: the [IndexError] of line 34 is logged and nothing
    else happens. *)
Theorem file_name_without_underscore_stops (vendor : str) (blocklist_filenames : list str)
    (suffix : option str) (name : str) :
  name ∈ blocklist_filenames →
  0x5f ∉ name →
  upload_blocklists W vendor blocklist_filenames suffix
  = ([Log WARNING "Failed to update repository with %s blocklists" [AStr vendor];
      Log WARNING "%s" [ARepr IndexError]],
     Ok tt).
Proof.
  intros Hin Hname.
  destruct (comprehension_raise (file_name vendor suffix) blocklist_filenames name Hin)
    as (bad & error & _ & Hbad & Hcomp).
  { unfold file_name. by rewrite split_on_one. }
  assert (error = IndexError) as ->.
  { unfold file_name in Hbad.
    destruct (split_on 0x5f bad) as [|? [|]]; try discriminate Hbad; by injection Hbad as <-. }
  unfold upload_blocklists, try_except, upload_body. by rewrite Hcomp.
Qed.

End Outcome.


Lemma missing_credentials_send_nothing_witness :
  calls (Github.upload_blocklists
           (remote_env [("GITHUB_ACCESS_TOKEN", Some (py "ghp")); ("BLOCKLIST_REPOSITORY_NAME", None)]
              None)
           (py "Google") [py "Google_urls.txt"] None) = []
  ∧ logs (Github.upload_blocklists
            (remote_env [("GITHUB_ACCESS_TOKEN", Some (py "ghp")); ("BLOCKLIST_REPOSITORY_NAME", None)]
               None)
            (py "Google") [py "Google_urls.txt"] None) = failure_logs.
Proof.
  apply (missing_credentials_send_nothing
           (remote_env [("GITHUB_ACCESS_TOKEN", Some (py "ghp")); ("BLOCKLIST_REPOSITORY_NAME", None)]
              None)
           (py "Google") [py "Google_urls.txt"] None).
  right. exact I.
Defined.

Lemma file_name_without_underscore_stops_witness :
  Github.upload_blocklists (remote_env full_env None) (py "Google")
    [py "Google_urls.txt"; py "ips.txt"] None
  = ([Log WARNING "Failed to update repository with %s blocklists" [AStr (py "Google")];
      Log WARNING "%s" [ARepr IndexError]],
     Ok tt).
Proof.
  apply (file_name_without_underscore_stops (remote_env full_env None) (py "Google")
           [py "Google_urls.txt"; py "ips.txt"] None (py "ips.txt")).
  - apply list_elem_of_further, list_elem_of_here.
  - apply (bool_decide_unpack _). vm_compute. reflexivity.
Defined.

(** ** The names of the published files *)

Lemma split_on_first (sep : N) (a b : str) :
  sep ∉ a → split_on sep (a ++ sep :: b) = a :: split_on sep b.
Proof.
  induction a as [|c a IH]; simpl; intros Ha.
  - by rewrite N.eqb_refl.
  - apply not_elem_of_cons in Ha as [Hc Ha].
    destruct (N.eqb_spec c sep) as [->|_]; [done|]. by rewrite IH.
Qed.

(** X26. A blocklist is published under the name made of the vendor, the part
    of its file name between the first and the second underscore, the
    suffix when one is given and not empty, and [.txt]: what comes before
    the first underscore and after the second one plays no part. *)
Theorem file_name_keeps_second_part (vendor first part rest : str) (suffix : option str) :
  0x5f ∉ first →
  0x5f ∉ part →
  (rest = [] ∨ ∃ more, rest = py "_" ++ more) →
  Github.file_name vendor suffix (first ++ py "_" ++ part ++ rest)
  = Ok (vendor ++ py "_" ++ part
          ++ match suffix with
             | None | Some [] => []
             | Some sfx => py "_" ++ sfx
             end
          ++ py ".txt").
Proof.
  intros Hfirst Hpart Hrest. unfold Github.file_name.
  change (first ++ py "_" ++ part ++ rest) with (first ++ 0x5f :: (part ++ rest)).
  rewrite split_on_first by done.
  destruct Hrest as [->|[more ->]].
  - by rewrite app_nil_r, split_on_one.
  - change (part ++ py "_" ++ more) with (part ++ 0x5f :: more).
    by rewrite split_on_first.
Qed.

Lemma file_name_keeps_second_part_witness :
  Github.file_name (py "Google") (Some (py "v2")) (py "top1m" ++ py "_" ++ py "urls" ++ py "_2021.txt")
  = Ok (py "Google" ++ py "_" ++ py "urls" ++ py "_" ++ py "v2" ++ py ".txt").
Proof.
  apply (file_name_keeps_second_part (py "Google") (py "top1m") (py "urls") (py "_2021.txt")
           (Some (py "v2"))).
  - apply (bool_decide_unpack _). vm_compute. reflexivity.
  - apply (bool_decide_unpack _). vm_compute. reflexivity.
  - right. by exists (py "2021.txt").
Defined.

(** ** The candidates of the testing mode *)

(** X27. The candidates are the last 1500 entries of the whitelist, in order,
    and the whole whitelist when it is shorter. *)
Theorem candidates_are_the_last_entries (whitelist : list str) :
  Main.top1m_urls whitelist `suffix_of` whitelist
  ∧ length (Main.top1m_urls whitelist) = Nat.min 1500 (length whitelist)
  ∧ ((length whitelist ≤ 1500)%nat → Main.top1m_urls whitelist = whitelist).
Proof.
  unfold Main.top1m_urls, Main.last_n, Main.testing_quantity. split; [|split].
  - exists (take (length whitelist - 1500) whitelist). by rewrite take_drop.
  - rewrite length_drop. lia.
  - intros Hshort. by replace (length whitelist - 1500)%nat with 0%nat by lia.
Qed.

(** ** A file read in one chunk *)

(** X17. A reply of at most 1024**2 bytes is one chunk: when it decompresses
    and decodes to a text that is not empty, the decoder ends normally and
    emits, in order, the tokens of the lines of that text, the last line
    included whether it is terminated or not. *)
Theorem small_stream_is_decoded_line_by_line (W : World) (endpoint : str) (h : headers)
    (content raw : bytes) (d : dstate (zlib W)) (text : str) :
  get_async_stream W endpoint h = Ok (Some content) →
  content ≠ [] →
  N.of_nat (length content) ≤ 1024 ^ 2 →
  decompress (zlib W) (decompressobj (zlib W)) content = Ok (d, raw) →
  decode raw = Ok text →
  text ≠ [] →
  (extract_zonefile_urls W endpoint h).2 = Ok tt
  ∧ tokens (extract_zonefile_urls W endpoint h) = omap (url_of_line W) (splitlines text).
Proof.
  intros Hstream Hne Hlen Hd Hraw Htext.
  destruct (read_chunks_inside_lines W [content] (decompressobj (zlib W)) [] [text])
    as (evs & last & Hread & Htokens).
  { simpl. by rewrite Hd, Hraw. }
  { constructor. }
  { done. }
  unfold tokens, extract_zonefile_urls. rewrite Hstream. eff.
  replace (pieces (1024 ^ 2) content) with (@cons bytes content (@nil bytes))
    by (symmetry; by apply pieces_one).
  unfold extract_from_chunks. rewrite Hread. eff.
  simpl in Htokens. rewrite app_nil_r in Htokens. rewrite <- Htokens.
  destruct (url_of_line W last) as [url|]; eff.
  - split; [reflexivity|]. rewrite (yields_call _ _ _ (Ok tt)).
    unfold yields. cbn [fst]. rewrite omap_app, concat_app. reflexivity.
  - split; [reflexivity|]. rewrite (yields_call _ _ _ (Ok tt)), !app_nil_r. reflexivity.
Qed.

Lemma small_stream_is_decoded_line_by_line_witness :
  (extract_zonefile_urls (world token_reply (JArr [com_zone]) (Ok (Some gz_example)))
     (job_endpoint com_job) []).2 = Ok tt
  ∧ tokens (extract_zonefile_urls (world token_reply (JArr [com_zone]) (Ok (Some gz_example)))
              (job_endpoint com_job) [])
    = omap (url_of_line (world token_reply (JArr [com_zone]) (Ok (Some gz_example))))
        (splitlines (py "EXAMPLE.COM." ++ [0x09] ++ py "A" ++ [0x0a]
                       ++ py "Foo.Test." ++ [0x09] ++ py "NS" ++ [0x0a])).
Proof.
  eapply (small_stream_is_decoded_line_by_line
            (world token_reply (JArr [com_zone]) (Ok (Some gz_example)))
            (job_endpoint com_job) [] gz_example).
  - reflexivity.
  - vm_compute. discriminate.
  - vm_compute. discriminate.
  - vm_compute. reflexivity.
  - vm_compute. reflexivity.
  - vm_compute. discriminate.
Defined.
